(** * Palm-detection WebSocket service: a shallow embedding of [main.py]

    The service reads one text frame at a time from a WebSocket, decodes the
    image it carries, asks a MediaPipe [Hands] instance for hand landmarks,
    applies a three-comparison heuristic and answers with one of the texts
    [start], [wait] or [error].

    The embedding keeps the shape of the Python source:
    - [PyStr.split] and [getitem] are [str.split] and list indexing;
    - [Cv2.cvtColor] is the red/blue channel swap of OpenCV;
    - [detect_palm] and [websocket_endpoint] follow the two functions of the
      file statement by statement, in a state-and-exception monad;
    - the libraries whose internals the file never looks at
      ([base64.b64decode], [PIL.Image.open], [numpy.array], [Hands.process])
      are section variables, so every theorem holds for all of them. *)

From Stdlib Require Import List String Ascii ZArith Bool Lia.
From Stdlib Require Import Floats.PrimFloat.
Import ListNotations.
Local Open Scope string_scope.
Local Open Scope list_scope.

Set Implicit Arguments.

(** ** Exceptions and results

    Every error the per-frame code can meet derives from Python's
    [Exception], which is what both [except Exception] clauses catch.
    [exn] holds these and nothing else: what derives from [BaseException]
    only ([asyncio.CancelledError] delivered at an [await] when the task is
    cancelled, [KeyboardInterrupt], [SystemExit]) passes both clauses
    uncaught and is not modelled; no statement below speaks of it. *)

Inductive exn : Type :=
| IndexError                      (* list index out of range *)
| TypeError (msg : string)        (* subscripting None *)
| ValueError (msg : string)       (* non-ASCII text handed to b64decode *)
| BinasciiError (msg : string)    (* binascii.Error *)
| UnidentifiedImageError          (* PIL cannot identify the image *)
| OSError (msg : string)          (* PIL: truncated or broken data *)
| Cv2Error (msg : string)         (* cv2.error *)
| RuntimeError (msg : string)     (* raised inside the estimator *)
| WebSocketDisconnect (code : Z). (* the peer closed, or the socket broke *)

Inductive result (A : Type) : Type :=
| Return (a : A)
| Raise (e : exn).
Arguments Raise {A} e.

Definition rbind {A B} (r : result A) (k : A -> result B) : result B :=
  match r with
  | Return a => k a
  | Raise e => Raise e
  end.

Declare Scope result_scope.
Delimit Scope result_scope with result.
Notation "x <- r ;; k" := (rbind r (fun x => k))
  (at level 61, r at next level, right associativity) : result_scope.

(** [xs[i]] on a Python list (or a protobuf repeated field), [i >= 0]. *)
Definition getitem {A} (xs : list A) (i : nat) : result A :=
  match nth_error xs i with
  | Some a => Return a
  | None => Raise IndexError
  end.

(** ** [str.split(sep)] with a one-character separator *)

Module PyStr.

Fixpoint split (sep : ascii) (s : string) : list string :=
  match s with
  | EmptyString => [EmptyString]
  | String c rest =>
      if Ascii.eqb c sep then EmptyString :: split sep rest
      else match split sep rest with
           | seg :: segs => String c seg :: segs
           | [] => [String c EmptyString]
           end
  end.

(** Does [sep] occur in [s]? *)
Fixpoint contains (sep : ascii) (s : string) : bool :=
  match s with
  | EmptyString => false
  | String c rest => Ascii.eqb c sep || contains sep rest
  end.

(** The text before the first [sep] (all of [s] when there is none). *)
Fixpoint before (sep : ascii) (s : string) : string :=
  match s with
  | EmptyString => EmptyString
  | String c rest =>
      if Ascii.eqb c sep then EmptyString else String c (before sep rest)
  end.

(** The text after the first [sep], when there is one. *)
Fixpoint after (sep : ascii) (s : string) : option string :=
  match s with
  | EmptyString => None
  | String c rest => if Ascii.eqb c sep then Some rest else after sep rest
  end.

End PyStr.

Definition comma : ascii := ","%char.

(** The payload as the interface description words it: all the text that
    follows the first comma. *)
Definition remainder_after_first_comma (data : string) : option string :=
  PyStr.after comma data.

(** ** OpenCV colour conversion

    An array is kept as rows of pixels, a pixel as the list of its channel
    values ([uint8] for the images PIL produces).  [COLOR_BGR2RGB] and
    [COLOR_RGB2BGR] are the same OpenCV code: swap the first and the third
    channel of a 3- or 4-channel image and return 3 channels; any other
    channel count, and an empty array, make [cvtColor] raise. *)

Module Cv2.

Definition pixel : Type := list Z.
Definition ndarray : Type := list (list pixel).

Inductive ColorConversionCode : Type :=
| COLOR_BGR2RGB
| COLOR_RGB2BGR.

Definition swap_rb (p : pixel) : result pixel :=
  match p with
  | [c0; c1; c2] => Return [c2; c1; c0]
  | [c0; c1; c2; _] => Return [c2; c1; c0]
  | _ => Raise (Cv2Error "Invalid number of channels in input image")
  end.

Fixpoint mapM {A B} (f : A -> result B) (xs : list A) : result (list B) :=
  match xs with
  | [] => Return []
  | x :: xs' =>
      (y <- f x ;; ys <- mapM f xs' ;; Return (y :: ys))%result
  end.

Definition empty (src : ndarray) : bool :=
  match List.concat src with [] => true | _ :: _ => false end.

Definition cvtColor (src : ndarray) (code : ColorConversionCode)
  : result ndarray :=
  if empty src then Raise (Cv2Error "!_src.empty()")
  else match code with
       | COLOR_BGR2RGB => mapM (mapM swap_rb) src
       | COLOR_RGB2BGR => mapM (mapM swap_rb) src
       end.

(** A height x width x 3 array. *)
Definition three_channels (src : ndarray) : bool :=
  forallb (forallb (fun p : pixel => (List.length p =? 3)%nat)) src.

(** The first three channels of every pixel. *)
Definition drop_alpha (src : ndarray) : ndarray :=
  map (map (firstn 3)) src.

(** The arrays these two codes accept: not empty, every pixel of three or
    four channels. *)
Definition convertible (src : ndarray) : bool :=
  negb (empty src) &&
  forallb (forallb (fun p : pixel =>
                      (List.length p =? 3)%nat || (List.length p =? 4)%nat))
    src.

End Cv2.

(** ** MediaPipe landmark data *)

Module Mp.

(** [mp.solutions.hands.HandLandmark], an [IntEnum]. *)
Inductive HandLandmark : Type :=
| WRIST
| THUMB_CMC | THUMB_MCP | THUMB_IP | THUMB_TIP
| INDEX_FINGER_MCP | INDEX_FINGER_PIP | INDEX_FINGER_DIP | INDEX_FINGER_TIP
| MIDDLE_FINGER_MCP | MIDDLE_FINGER_PIP | MIDDLE_FINGER_DIP
| MIDDLE_FINGER_TIP
| RING_FINGER_MCP | RING_FINGER_PIP | RING_FINGER_DIP | RING_FINGER_TIP
| PINKY_MCP | PINKY_PIP | PINKY_DIP | PINKY_TIP.

Definition value (l : HandLandmark) : nat :=
  match l with
  | WRIST => 0
  | THUMB_CMC => 1 | THUMB_MCP => 2 | THUMB_IP => 3 | THUMB_TIP => 4
  | INDEX_FINGER_MCP => 5 | INDEX_FINGER_PIP => 6
  | INDEX_FINGER_DIP => 7 | INDEX_FINGER_TIP => 8
  | MIDDLE_FINGER_MCP => 9 | MIDDLE_FINGER_PIP => 10
  | MIDDLE_FINGER_DIP => 11 | MIDDLE_FINGER_TIP => 12
  | RING_FINGER_MCP => 13 | RING_FINGER_PIP => 14
  | RING_FINGER_DIP => 15 | RING_FINGER_TIP => 16
  | PINKY_MCP => 17 | PINKY_PIP => 18 | PINKY_DIP => 19 | PINKY_TIP => 20
  end.

(** Number of landmarks in the estimator's hand schema. *)
Definition schema_size : nat := 21.

Record NormalizedLandmark : Type := {
  x : float;
  y : float;
  z : float
}.

Record NormalizedLandmarkList : Type := {
  landmark : list NormalizedLandmark
}.

(** What [Hands.process] returns: [multi_hand_landmarks] is [None] when no
    hand was found, otherwise the list of hands. *)
Record SolutionOutputs : Type := {
  multi_hand_landmarks : option (list NormalizedLandmarkList)
}.

End Mp.

(** Truth value of [None] or a list in an [if]. *)
Definition truthy {A} (v : option (list A)) : bool :=
  match v with
  | Some (_ :: _) => true
  | _ => false
  end.

(** ** The classifier: lines 37-57 of [detect_palm]

    Everything [detect_palm] does once [hands.process] has returned. *)

Definition palm_facing (results : Mp.SolutionOutputs) : result bool :=
  if truthy (Mp.multi_hand_landmarks results) then
    (hands_found <-
       match Mp.multi_hand_landmarks results with
       | Some hs => Return hs
       | None => Raise (TypeError "'NoneType' object is not subscriptable")
       end ;;
     hand_landmarks <- getitem hands_found 0 ;;
     thumb <- getitem (Mp.landmark hand_landmarks) (Mp.value Mp.THUMB_TIP) ;;
     index <- getitem (Mp.landmark hand_landmarks)
                (Mp.value Mp.INDEX_FINGER_TIP) ;;
     pinky <- getitem (Mp.landmark hand_landmarks) (Mp.value Mp.PINKY_TIP) ;;
     wrist <- getitem (Mp.landmark hand_landmarks) (Mp.value Mp.WRIST) ;;
     let fingers_extended :=
       ltb (Mp.y thumb) (Mp.y wrist) &&
       ltb (Mp.y index) (Mp.y wrist) &&
       ltb (Mp.y pinky) (Mp.y wrist) in
     Return fingers_extended)%result
  else Return false.

(** ** The service

    [World] is everything the coroutine can change: the process-wide
    [hands] object, what was printed, and the socket of the connection.
    The socket is scripted: [send_faults] lists the outcome of the coming
    [send_text] calls ([None]: delivered, [Some e]: raises [e]; past the end
    of the script every send is delivered), [outbox] the texts delivered to
    the peer, oldest first. *)

Inductive log_line : Type :=
| ErrorProcessingImage (e : exn)  (* print(f"Error processing image: {e}") *)
| WebSocketError (e : exn).       (* print(f"WebSocket error: {e}") *)

Definition is_processing_line (l : log_line) : bool :=
  match l with
  | ErrorProcessingImage _ => true
  | WebSocketError _ => false
  end.

Inductive status : Type :=
| Open      (* the loop is awaiting the next receive_text *)
| Closed.   (* the coroutine has returned *)

Module Server.

Section Service.

(** The collaborators. *)
Variable Image : Type.                      (* a PIL image *)
Variable HandsState : Type.                 (* what mp_hands.Hands holds *)
Variable b64decode : string -> result (list Byte.byte).
Variable Image_open : list Byte.byte -> result Image.
Variable np_array : Image -> result Cv2.ndarray.
Variable hands_process :
  HandsState -> Cv2.ndarray -> HandsState * result Mp.SolutionOutputs.

Record World : Type := {
  hands : HandsState;
  stdout : list log_line;
  send_faults : list (option exn);
  outbox : list string
}.

Definition M (A : Type) : Type := World -> World * result A.

Definition ret {A} (a : A) : M A := fun w => (w, Return a).

Definition bind {A B} (m : M A) (k : A -> M B) : M B :=
  fun w =>
    match m w with
    | (w', Return a) => k a w'
    | (w', Raise e) => (w', Raise e)
    end.

Definition lift {A} (r : result A) : M A := fun w => (w, r).

(** [try: body except Exception as e: handler(e)] *)
Definition try_except {A} (body : M A) (handler : exn -> M A) : M A :=
  fun w =>
    match body w with
    | (w', Return a) => (w', Return a)
    | (w', Raise e) => handler e w'
    end.

Notation "x <- m ;; k" := (bind m (fun x => k))
  (at level 61, m at next level, right associativity).
Notation "m ;;; k" := (bind m (fun _ => k))
  (at level 61, right associativity).

(** *** Effects *)

Definition set_hands (h : HandsState) (w : World) : World :=
  {| hands := h; stdout := stdout w;
     send_faults := send_faults w; outbox := outbox w |}.

Definition log (l : log_line) (w : World) : World :=
  {| hands := hands w; stdout := stdout w ++ [l];
     send_faults := send_faults w; outbox := outbox w |}.

Definition deliver (text : string) (w : World) : World :=
  {| hands := hands w; stdout := stdout w;
     send_faults := tl (send_faults w); outbox := outbox w ++ [text] |}.

Definition fault (w : World) : World :=
  {| hands := hands w; stdout := stdout w;
     send_faults := tl (send_faults w); outbox := outbox w |}.

Definition print (l : log_line) : M unit := fun w => (log l w, Return tt).

(** [hands.process(image)] on the global instance. *)
Definition process (image : Cv2.ndarray) : M Mp.SolutionOutputs :=
  fun w =>
    let (h', r) := hands_process (hands w) image in (set_hands h' w, r).

(** [await websocket.send_text(text)] *)
Definition send_text (text : string) : M unit :=
  fun w =>
    match send_faults w with
    | Some e :: _ => (fault w, Raise e)
    | _ => (deliver text w, Return tt)
    end.

(** *** [detect_palm], lines 30-57 *)

Definition detect_palm (image : Cv2.ndarray) : M bool :=
  image_rgb <- lift (Cv2.cvtColor image Cv2.COLOR_BGR2RGB) ;;
  results <- process image_rgb ;;
  lift (palm_facing results).

(** *** [websocket_endpoint], lines 60-87 *)

(** Line 70, [data.split(',')[1]]: the text handed to [b64decode]. *)
Definition payload_segment (data : string) : result string :=
  getitem (PyStr.split comma data) 1.

(** Lines 70-74: from the received text to the OpenCV image. *)
Definition decode_frame (data : string) : result Cv2.ndarray :=
  (segment <- payload_segment data ;;
   img_data <- b64decode segment ;;
   img <- Image_open img_data ;;
   pixels <- np_array img ;;
   Cv2.cvtColor pixels Cv2.COLOR_RGB2BGR)%result.

(** Lines 70-74 and 32: the array that reaches [hands.process]. *)
Definition estimator_input (data : string) : result Cv2.ndarray :=
  (opencv_img <- decode_frame data ;;
   Cv2.cvtColor opencv_img Cv2.COLOR_BGR2RGB)%result.

(** Lines 70-77: decode, estimate, classify. *)
Definition process_frame (data : string) : M bool :=
  opencv_img <- lift (decode_frame data) ;;
  detect_palm opencv_img.

(** Lines 69-80, the body of the inner [try]. *)
Definition frame_body (data : string) : M unit :=
  palm_detected <- process_frame data ;;
  send_text (if palm_detected : bool then "start" else "wait").

(** Lines 68-84, the inner [try ... except Exception]. *)
Definition frame (data : string) : M unit :=
  try_except (frame_body data)
    (fun e => print (ErrorProcessingImage e) ;;; send_text "error").

(** Lines 64-84, [while True].  [incoming] scripts the outcome of the
    coming [receive_text] calls; when it is used up the loop is left
    awaiting the next message, which is the normal return here. *)
Fixpoint session (incoming : list (result string)) : M unit :=
  match incoming with
  | [] => ret tt
  | received :: rest =>
      data <- lift received ;;
      frame data ;;;
      session rest
  end.

(** The whole coroutine.  [accept_fault] scripts [websocket.accept()],
    which sits outside the [try] and so lets its exception escape. *)
Definition websocket_endpoint (accept_fault : option exn)
    (incoming : list (result string)) : M status :=
  match accept_fault with Some e => lift (Raise e) | None => ret tt end ;;;
  try_except (session incoming ;;; ret Open)
    (fun e => print (WebSocketError e) ;;; ret Closed).

(** *** Reading the run

    [verdict] is [process_frame] seen from the estimator: the state it is
    left in and what the classifier said.  [token_of] is the text that
    answers such an outcome, [replies] the answers to a run of messages,
    the estimator state threaded from one to the next. *)

Definition verdict (h : HandsState) (data : string)
  : HandsState * result bool :=
  match estimator_input data with
  | Return image_rgb =>
      let (h', r) := hands_process h image_rgb in (h', rbind r palm_facing)
  | Raise e => (h, Raise e)
  end.

Definition token_of (r : result bool) : string :=
  match r with
  | Return true => "start"
  | Return false => "wait"
  | Raise _ => "error"
  end.

Fixpoint replies (h : HandsState) (msgs : list string) : list string :=
  match msgs with
  | [] => []
  | data :: rest =>
      let (h', r) := verdict h data in token_of r :: replies h' rest
  end.

(** The estimator state after a run of messages. *)
Fixpoint hands_after (h : HandsState) (msgs : list string) : HandsState :=
  match msgs with
  | [] => h
  | data :: rest => hands_after (fst (verdict h data)) rest
  end.

Definition is_token (s : string) : Prop :=
  s = "start" \/ s = "wait" \/ s = "error".

(** No send of the script fails. *)
Definition sound_socket (w : World) : bool :=
  forallb (fun o : option exn =>
             match o with None => true | Some _ => false end)
    (send_faults w).

(** The coming send does not fail. *)
Definition next_send_ok (w : World) : bool :=
  match send_faults w with
  | Some _ :: _ => false
  | _ => true
  end.

End Service.

End Server.

Import Server.

(** ** A reference instance of the collaborators

    Stand-ins on which the general theorems are run, not models of PIL or
    MediaPipe; no theorem about the service depends on them.  A lenient
    base64 decoder with the
    behaviour of [base64.b64decode(s)] (characters outside the alphabet are
    skipped, decoding stops at a complete pad), a two-byte-header raster
    container in place of JPEG/PNG, and a small estimator with the shape of
    [Hands(static_image_mode=False)]: it detects a hand on strong evidence
    and, once a hand is localised, keeps tracking it on weaker evidence. *)

Module Reference.

Definition b64_value (c : ascii) : option N :=
  let n := N_of_ascii c in
  if ((65 <=? n) && (n <=? 90))%N then Some (n - 65)%N
  else if ((97 <=? n) && (n <=? 122))%N then Some (n - 71)%N
  else if ((48 <=? n) && (n <=? 57))%N then Some (n + 4)%N
  else if (n =? 43)%N then Some 62%N
  else if (n =? 47)%N then Some 63%N
  else None.

Definition emit (b : N) (r : result (list Byte.byte))
  : result (list Byte.byte) :=
  (bs <- r ;; Return (byte_of_ascii (ascii_of_N b) :: bs))%result.

Fixpoint a2b_base64 (data : string) (quad_pos : nat) (leftchar : N)
    (pads : nat) : result (list Byte.byte) :=
  match data with
  | EmptyString =>
      match quad_pos with
      | O => Return []
      | _ => Raise (BinasciiError "Incorrect padding")
      end
  | String c rest =>
      if Ascii.eqb c "="%char then
        if (2 <=? quad_pos)%nat then
          if (4 <=? quad_pos + S pads)%nat then Return []
          else a2b_base64 rest quad_pos leftchar (S pads)
        else a2b_base64 rest quad_pos leftchar pads
      else
        match b64_value c with
        | None => a2b_base64 rest quad_pos leftchar pads
        | Some v =>
            match quad_pos with
            | 0%nat => a2b_base64 rest 1 v 0
            | 1%nat =>
                emit (N.lor (N.shiftl leftchar 2) (N.shiftr v 4))
                  (a2b_base64 rest 2 (N.land v 15) 0)
            | 2%nat =>
                emit (N.lor (N.shiftl leftchar 4) (N.shiftr v 2))
                  (a2b_base64 rest 3 (N.land v 3) 0)
            | _ =>
                emit (N.lor (N.shiftl leftchar 6) v)
                  (a2b_base64 rest 0 0 0)
            end
        end
  end.

Fixpoint is_ascii (s : string) : bool :=
  match s with
  | EmptyString => true
  | String c rest => (N_of_ascii c <? 128)%N && is_ascii rest
  end.

Definition b64decode (s : string) : result (list Byte.byte) :=
  if is_ascii s then a2b_base64 s 0 0 0
  else Raise (ValueError
                "string argument should contain only ASCII characters").

(** The raster container: magic byte [0x52], channel count, then one row
    of pixels. *)
Record Image : Type := {
  channels : nat;
  raw : list Z
}.

Definition Image_open (bs : list Byte.byte) : result Image :=
  match bs with
  | magic :: ch :: rest =>
      if (Byte.to_N magic =? 82)%N then
        Return {| channels := N.to_nat (Byte.to_N ch);
                  raw := map (fun b => Z.of_N (Byte.to_N b)) rest |}
      else Raise UnidentifiedImageError
  | _ => Raise UnidentifiedImageError
  end.

Fixpoint chunks (fuel n : nat) (xs : list Z) : list (list Z) :=
  match fuel, xs with
  | S fuel', _ :: _ => firstn n xs :: chunks fuel' n (skipn n xs)
  | _, _ => []
  end.

Definition np_array (img : Image) : result Cv2.ndarray :=
  match channels img with
  | O => Raise (OSError "cannot identify image mode")
  | S _ =>
      if (List.length (raw img) mod channels img =? 0)%nat then
        Return [chunks (List.length (raw img)) (channels img) (raw img)]
      else Raise (OSError "image file is truncated")
  end.

(** The estimator: [true] while a hand is being tracked. *)
Definition HandsState : Type := bool.

Definition idle : HandsState := false.

Definition point (v : float) : Mp.NormalizedLandmark :=
  {| Mp.x := 0.5; Mp.y := v; Mp.z := 0 |}.

(** Wrist at height [wrist], the twenty other landmarks at [others]. *)
Definition hand (wrist others : float) : Mp.NormalizedLandmarkList :=
  {| Mp.landmark := point wrist :: repeat (point others) 20 |}.

Definition open_hand : Mp.NormalizedLandmarkList := hand 0.75 0.25.
Definition fist : Mp.NormalizedLandmarkList := hand 0.5 0.75.

Definition no_hand : Mp.SolutionOutputs :=
  {| Mp.multi_hand_landmarks := None |}.

Definition one_hand (h : Mp.NormalizedLandmarkList) : Mp.SolutionOutputs :=
  {| Mp.multi_hand_landmarks := Some [h] |}.

(** The red channel of the top-left pixel is the evidence for a hand
    (out of 255), green below blue means raised fingers. *)
Definition hands_process (st : HandsState) (image : Cv2.ndarray)
  : HandsState * result Mp.SolutionOutputs :=
  match image with
  | ([r; g; b] :: _) :: _ =>
      if (179 <=? r)%Z || (st && (77 <=? r)%Z) then
        (true, Return (one_hand (if (g <? b)%Z then open_hand else fist)))
      else (false, Return no_hand)
  | _ => (st, Raise (RuntimeError "image must be height x width x 3"))
  end.

Definition World : Type := World HandsState.

(** A fresh connection on an idle estimator over a sound socket. *)
Definition fresh : World :=
  {| hands := idle; stdout := []; send_faults := []; outbox := [] |}.

Definition disconnect : exn := WebSocketDisconnect 1006.

(** A socket whose first send fails and whose second goes through. *)
Definition flaky : World :=
  {| hands := idle; stdout := [];
     send_faults := [Some disconnect; None]; outbox := [] |}.

(** A socket on which the first two sends fail. *)
Definition broken : World :=
  {| hands := idle; stdout := [];
     send_faults := [Some disconnect; Some disconnect]; outbox := [] |}.

(** The world a later connection starts in: a new socket, the same
    process. *)
Definition next_connection (w : World) : World :=
  {| hands := hands w; stdout := stdout w;
     send_faults := []; outbox := [] |}.

Definition process_frame : string -> M HandsState bool :=
  process_frame b64decode Image_open np_array hands_process.

Definition frame : string -> M HandsState unit :=
  frame b64decode Image_open np_array hands_process.

Definition session : list (result string) -> M HandsState unit :=
  session b64decode Image_open np_array hands_process.

Definition websocket_endpoint
  : option exn -> list (result string) -> M HandsState status :=
  websocket_endpoint b64decode Image_open np_array hands_process.

(** Frames in the container format, as data URLs. *)
Definition strong_open_hand : string := "data:image/raw;base64,UgPIClo=".
Definition weak_open_hand : string := "data:image/raw;base64,UgN4Clo=".
Definition background : string := "data:image/raw;base64,UgMAAAA=".
Definition closed_fist : string := "data:image/raw;base64,UgPIWgo=".

End Reference.

(** * Properties *)

Unset Implicit Arguments.

(** ** Splitting *)

Module PyStrFacts.
Import PyStr.

Lemma split_cons (sep : ascii) (s : string) :
  exists seg segs, split sep s = seg :: segs.
Proof.
  destruct s as [|c rest]; simpl.
  - now exists EmptyString, [].
  - destruct (Ascii.eqb c sep).
    + now exists EmptyString, (split sep rest).
    + destruct (split sep rest) as [|seg segs]; eauto.
Qed.

Lemma split_head (sep : ascii) (s : string) :
  hd EmptyString (split sep s) = before sep s.
Proof.
  induction s as [|c rest IH]; simpl; trivial.
  destruct (Ascii.eqb c sep); simpl; trivial.
  destruct (split sep rest) as [|seg segs]; simpl in *; now rewrite <- IH.
Qed.

Lemma split_tail (sep : ascii) (s : string) :
  tl (split sep s) =
  match after sep s with
  | Some rest => split sep rest
  | None => []
  end.
Proof.
  induction s as [|c rest IH]; simpl; trivial.
  destruct (Ascii.eqb c sep); simpl; trivial.
  destruct (split sep rest) as [|seg segs]; simpl in *; trivial.
Qed.

(** [s.split(sep)[1]] is the text between the first and the second
    separator. *)
Lemma split_second (sep : ascii) (s : string) :
  nth_error (split sep s) 1 = option_map (before sep) (after sep s).
Proof.
  destruct (split_cons sep s) as (seg & segs & E).
  generalize (split_tail sep s); rewrite E; simpl; intros ->.
  destruct (after sep s) as [rest|]; simpl; trivial.
  rewrite <- split_head.
  destruct (split_cons sep rest) as (seg' & segs' & ->); trivial.
Qed.

Lemma after_none (sep : ascii) (s : string) :
  contains sep s = false <-> after sep s = None.
Proof.
  induction s as [|c rest IH]; simpl; [tauto|].
  destruct (Ascii.eqb c sep); simpl; [split; discriminate | exact IH].
Qed.

Lemma before_whole (sep : ascii) (s : string) :
  contains sep s = false -> before sep s = s.
Proof.
  induction s as [|c rest IH]; simpl; trivial.
  destruct (Ascii.eqb c sep); simpl; [discriminate|].
  intros H; now rewrite IH.
Qed.

Lemma before_app (sep : ascii) (s junk : string) :
  before sep (s ++ String sep junk)%string = before sep s.
Proof.
  induction s as [|c rest IH]; simpl.
  - now rewrite Ascii.eqb_refl.
  - destruct (Ascii.eqb c sep); [trivial | now rewrite IH].
Qed.

Lemma after_app (sep : ascii) (s tail : string) :
  contains sep s = true ->
  after sep (s ++ tail)%string =
  option_map (fun r => (r ++ tail)%string) (after sep s).
Proof.
  induction s as [|c rest IH]; simpl; [discriminate|].
  destruct (Ascii.eqb c sep); simpl; [trivial | exact IH].
Qed.

End PyStrFacts.

(** ** Colour conversion *)

Module Cv2Facts.
Import Cv2.

Lemma mapM_inv {A B} (f : A -> result B) (xs : list A) (ys : list B) :
  mapM f xs = Return ys -> Forall2 (fun x y => f x = Return y) xs ys.
Proof.
  revert ys; induction xs as [|x xs IH]; simpl; intros ys H.
  - injection H as <-; constructor.
  - destruct (f x) as [y|] eqn:Ey; simpl in H; [|discriminate].
    destruct (mapM f xs) as [ys'|]; simpl in H; [|discriminate].
    injection H as <-; constructor; auto.
Qed.

Lemma mapM_intro {A B} (f : A -> result B) (xs : list A) (ys : list B) :
  Forall2 (fun x y => f x = Return y) xs ys -> mapM f xs = Return ys.
Proof.
  induction 1 as [|x y xs ys Hxy _ IH]; simpl; trivial.
  now rewrite Hxy, IH.
Qed.

Lemma swap_rb_back (p q : pixel) :
  swap_rb p = Return q -> swap_rb q = Return (firstn 3 p).
Proof.
  destruct p as [|c0 [|c1 [|c2 [|c3 [|c4 p]]]]]; simpl;
    try discriminate; intros H; injection H as <-; reflexivity.
Qed.

Lemma row_back (row row' : list pixel) :
  mapM swap_rb row = Return row' ->
  mapM swap_rb row' = Return (map (firstn 3) row).
Proof.
  intros H; apply mapM_inv in H; apply mapM_intro.
  induction H as [|p q ps qs Hpq _ IH]; simpl; constructor; trivial.
  now apply swap_rb_back.
Qed.

Lemma rows_back (src dst : ndarray) :
  mapM (mapM swap_rb) src = Return dst ->
  mapM (mapM swap_rb) dst = Return (drop_alpha src).
Proof.
  intros H; apply mapM_inv in H; apply mapM_intro.
  induction H as [|r r' rs rs' Hr _ IH]; simpl; constructor; trivial.
  now apply row_back.
Qed.

Lemma rows_same_size (src dst : ndarray) :
  mapM (mapM swap_rb) src = Return dst ->
  List.length (List.concat dst) = List.length (List.concat src).
Proof.
  intros H; apply mapM_inv in H.
  induction H as [|r r' rs rs' Hr _ IH]; simpl; trivial.
  rewrite !length_app, IH; f_equal.
  apply mapM_inv in Hr; clear -Hr.
  induction Hr; simpl; congruence.
Qed.

Lemma empty_preserved (src dst : ndarray) :
  mapM (mapM swap_rb) src = Return dst -> empty dst = empty src.
Proof.
  intros H; apply rows_same_size in H; unfold empty.
  destruct (List.concat dst), (List.concat src); simpl in H;
    trivial; discriminate.
Qed.

(** Converting there and back returns the colour channels of the source,
    whichever of the two codes either call uses. *)
Lemma cvtColor_back (src dst : ndarray) (c c' : ColorConversionCode) :
  cvtColor src c = Return dst ->
  cvtColor dst c' = Return (drop_alpha src).
Proof.
  unfold cvtColor; destruct (empty src) eqn:Es; [discriminate|].
  intros H.
  assert (H' : mapM (mapM swap_rb) src = Return dst) by (now destruct c).
  rewrite (empty_preserved _ _ H'), Es.
  destruct c'; now apply rows_back.
Qed.

Lemma three_channels_swap (row : list pixel) :
  forallb (fun p : pixel => (List.length p =? 3)%nat) row = true ->
  exists row', mapM swap_rb row = Return row'.
Proof.
  induction row as [|p row IH]; simpl; [now eexists|].
  intros H; apply andb_prop in H as [Hp Hrow].
  destruct (IH Hrow) as [row' ->].
  destruct p as [|c0 [|c1 [|c2 [|c3 p]]]]; try discriminate.
  simpl; now eexists.
Qed.

Lemma three_channels_convert (src : ndarray) (c : ColorConversionCode) :
  three_channels src = true -> empty src = false ->
  exists dst, cvtColor src c = Return dst.
Proof.
  unfold cvtColor; intros H ->.
  assert (E : exists dst, mapM (mapM swap_rb) src = Return dst).
  { induction src as [|row src IH]; simpl in *; [now eexists|].
    apply andb_prop in H as [Hrow Hsrc].
    destruct (three_channels_swap _ Hrow) as [row' ->].
    destruct (IH Hsrc) as [dst ->]; simpl; now eexists. }
  now destruct c.
Qed.

Lemma three_channels_row (row : list pixel) :
  forallb (fun p : pixel => (List.length p =? 3)%nat) row = true ->
  map (firstn 3) row = row.
Proof.
  induction row as [|p row IH]; cbn [map forallb]; trivial.
  intros H; apply andb_prop in H as [Hp Hrow].
  rewrite (IH Hrow).
  destruct p as [|c0 [|c1 [|c2 [|c3 p]]]]; try discriminate; reflexivity.
Qed.

Lemma three_channels_keep (src : ndarray) :
  three_channels src = true -> drop_alpha src = src.
Proof.
  unfold drop_alpha, three_channels.
  induction src as [|row src IH]; cbn [map forallb]; trivial.
  intros H; apply andb_prop in H as [Hrow Hsrc].
  now rewrite (IH Hsrc), (three_channels_row _ Hrow).
Qed.

Lemma mapM_raise {A B} (f : A -> result B) (xs : list A) (e : exn) :
  mapM f xs = Raise e -> exists x, In x xs /\ f x = Raise e.
Proof.
  induction xs as [|x xs IH]; simpl; [discriminate|].
  destruct (f x) as [y|e'] eqn:Ex; simpl.
  - destruct (mapM f xs) as [ys|e'']; simpl; [discriminate|].
    intros [= <-]; destruct (IH eq_refl) as (x' & Hin & Hx'); eauto.
  - intros [= <-]; eauto.
Qed.

Lemma swap_rb_cases (p : pixel) :
  ((List.length p =? 3)%nat || (List.length p =? 4)%nat = true /\
   exists c0 c1 c2, swap_rb p = Return [c2; c1; c0] /\
                    firstn 3 p = [c0; c1; c2]) \/
  ((List.length p =? 3)%nat || (List.length p =? 4)%nat = false /\
   swap_rb p = Raise (Cv2Error "Invalid number of channels in input image")).
Proof.
  destruct p as [|c0 [|c1 [|c2 [|c3 [|c4 p]]]]]; simpl; eauto 8.
Qed.

Lemma rows_three_channels (src dst : ndarray) :
  mapM (mapM swap_rb) src = Return dst -> three_channels dst = true.
Proof.
  intros H; apply mapM_inv in H; unfold three_channels.
  induction H as [|r r' rs rs' Hr _ IH]; cbn [forallb]; trivial.
  rewrite IH, andb_true_r; clear IH.
  apply mapM_inv in Hr.
  induction Hr as [|p q ps qs Hpq _ IHr]; cbn [forallb]; trivial.
  rewrite IHr, andb_true_r.
  destruct (swap_rb_cases p) as [(_ & c0 & c1 & c2 & E & _)|(_ & E)];
    rewrite E in Hpq; [now injection Hpq as <- | discriminate].
Qed.

Lemma rows_same_widths (src dst : ndarray) :
  mapM (mapM swap_rb) src = Return dst ->
  map (@List.length pixel) dst = map (@List.length pixel) src.
Proof.
  intros H; apply mapM_inv in H.
  induction H as [|r r' rs rs' Hr _ IH]; cbn [map]; trivial.
  rewrite IH; f_equal.
  apply mapM_inv in Hr; clear -Hr.
  induction Hr; simpl; congruence.
Qed.

Lemma rows_convertible (src dst : ndarray) :
  mapM (mapM swap_rb) src = Return dst ->
  forallb (forallb (fun p : pixel =>
                      (List.length p =? 3)%nat || (List.length p =? 4)%nat))
    src = true.
Proof.
  intros H; apply mapM_inv in H.
  induction H as [|r r' rs rs' Hr _ IH]; cbn [forallb]; trivial.
  rewrite IH, andb_true_r; clear IH.
  apply mapM_inv in Hr.
  induction Hr as [|p q ps qs Hpq _ IHr]; cbn [forallb]; trivial.
  rewrite IHr, andb_true_r.
  destruct (swap_rb_cases p) as [(Hlen & _)|(_ & E)];
    [exact Hlen | rewrite E in Hpq; discriminate].
Qed.

Lemma convertible_rows (src : ndarray) :
  forallb (forallb (fun p : pixel =>
                      (List.length p =? 3)%nat || (List.length p =? 4)%nat))
    src = true ->
  exists dst, mapM (mapM swap_rb) src = Return dst.
Proof.
  induction src as [|row src IH]; cbn [forallb mapM]; [now eexists|].
  intros H; apply andb_prop in H as [Hrow Hsrc].
  destruct (IH Hsrc) as [dst ->].
  assert (Erow : exists row', mapM swap_rb row = Return row').
  { clear -Hrow; induction row as [|p row IHrow]; cbn [forallb mapM] in *;
      [now eexists|].
    apply andb_prop in Hrow as [Hp Hrow].
    destruct (IHrow Hrow) as [row' ->].
    destruct (swap_rb_cases p) as [(_ & c0 & c1 & c2 & -> & _)|(Hbad & _)];
      [simpl; now eexists | congruence]. }
  destruct Erow as [row' ->]; simpl; now eexists.
Qed.

(** [cvtColor] succeeds exactly on the convertible arrays, and fails with a
    [cv2.error] on the others. *)
Lemma cvtColor_convertible (src : ndarray) (c : ColorConversionCode) :
  convertible src = true -> exists dst, cvtColor src c = Return dst.
Proof.
  unfold convertible, cvtColor; intros H; apply andb_prop in H as [He Hrows].
  apply negb_true_iff in He; rewrite He.
  destruct (convertible_rows src Hrows) as [dst E].
  exists dst; now destruct c.
Qed.

Lemma cvtColor_not_convertible (src : ndarray) (c : ColorConversionCode) :
  convertible src = false -> exists msg, cvtColor src c = Raise (Cv2Error msg).
Proof.
  unfold convertible, cvtColor; intros H.
  destruct (empty src); [now eexists|]; simpl in H.
  assert (E : exists msg, mapM (mapM swap_rb) src = Raise (Cv2Error msg)).
  { destruct (mapM (mapM swap_rb) src) as [dst|e] eqn:Es.
    - apply rows_convertible in Es; congruence.
    - apply mapM_raise in Es as (row & _ & Hrow).
      apply mapM_raise in Hrow as (p & _ & Hp).
      destruct (swap_rb_cases p) as [(_ & c0 & c1 & c2 & E & _)|(_ & E)];
        rewrite E in Hp; [discriminate|].
      injection Hp as <-; now eexists. }
  now destruct c.
Qed.

Lemma cvtColor_shape (src dst : ndarray) (c : ColorConversionCode) :
  cvtColor src c = Return dst ->
  three_channels dst = true /\ empty dst = false /\
  map (@List.length pixel) dst = map (@List.length pixel) src.
Proof.
  unfold cvtColor; destruct (empty src) eqn:Es; [discriminate|].
  intros H.
  assert (H' : mapM (mapM swap_rb) src = Return dst) by (now destruct c).
  split; [now apply rows_three_channels with src|].
  split; [now rewrite (empty_preserved _ _ H') | now apply rows_same_widths].
Qed.

End Cv2Facts.

(** ** The classifier *)

Local Open Scope float_scope.

(** A hand with the estimator's 21 landmarks has the four the classifier
    reads. *)
Lemma schema_has_four (hand : Mp.NormalizedLandmarkList) :
  List.length (Mp.landmark hand) = Mp.schema_size ->
  exists thumb index pinky wrist,
    nth_error (Mp.landmark hand) (Mp.value Mp.THUMB_TIP) = Some thumb /\
    nth_error (Mp.landmark hand) (Mp.value Mp.INDEX_FINGER_TIP) = Some index /\
    nth_error (Mp.landmark hand) (Mp.value Mp.PINKY_TIP) = Some pinky /\
    nth_error (Mp.landmark hand) (Mp.value Mp.WRIST) = Some wrist.
Proof.
  intros Hlen.
  assert (L : forall l, exists p,
             nth_error (Mp.landmark hand) (Mp.value l) = Some p).
  { intros l.
    destruct (nth_error (Mp.landmark hand) (Mp.value l)) eqn:E; eauto.
    apply nth_error_None in E; rewrite Hlen in E.
    destruct l; unfold Mp.schema_size in E; simpl in E; lia. }
  destruct (L Mp.THUMB_TIP) as [thumb ?], (L Mp.INDEX_FINGER_TIP) as [index ?],
    (L Mp.PINKY_TIP) as [pinky ?], (L Mp.WRIST) as [wrist ?].
  now exists thumb, index, pinky, wrist.
Qed.

Lemma palm_facing_found (hand : Mp.NormalizedLandmarkList)
    (others : list Mp.NormalizedLandmarkList)
    (thumb index pinky wrist : Mp.NormalizedLandmark) :
  nth_error (Mp.landmark hand) (Mp.value Mp.THUMB_TIP) = Some thumb ->
  nth_error (Mp.landmark hand) (Mp.value Mp.INDEX_FINGER_TIP) = Some index ->
  nth_error (Mp.landmark hand) (Mp.value Mp.PINKY_TIP) = Some pinky ->
  nth_error (Mp.landmark hand) (Mp.value Mp.WRIST) = Some wrist ->
  palm_facing {| Mp.multi_hand_landmarks := Some (hand :: others) |} =
  Return ((Mp.y thumb <? Mp.y wrist) && (Mp.y index <? Mp.y wrist) &&
          (Mp.y pinky <? Mp.y wrist)).
Proof.
  intros Ht Hi Hp Hw.
  unfold palm_facing; cbn [truthy Mp.multi_hand_landmarks rbind getitem
                             nth_error].
  unfold getitem; now rewrite Ht, Hi, Hp, Hw.
Qed.

(** C1. When a hand is detected (and has the four landmarks the schema
    promises) the classifier answers, and answers true exactly when the
    thumb tip, the index fingertip and the pinky tip all have a y below the
    wrist's; a detection that agrees on those four y-coordinates gets the
    same answer, whatever its other coordinates, landmarks and hands. *)
Theorem palm_facing_three_comparisons
    (hand : Mp.NormalizedLandmarkList)
    (others : list Mp.NormalizedLandmarkList)
    (thumb index pinky wrist : Mp.NormalizedLandmark) :
  nth_error (Mp.landmark hand) (Mp.value Mp.THUMB_TIP) = Some thumb ->
  nth_error (Mp.landmark hand) (Mp.value Mp.INDEX_FINGER_TIP) = Some index ->
  nth_error (Mp.landmark hand) (Mp.value Mp.PINKY_TIP) = Some pinky ->
  nth_error (Mp.landmark hand) (Mp.value Mp.WRIST) = Some wrist ->
  (exists b : bool,
      palm_facing {| Mp.multi_hand_landmarks := Some (hand :: others) |} =
      Return b /\
      (b = true <->
       (Mp.y thumb <? Mp.y wrist) = true /\
       (Mp.y index <? Mp.y wrist) = true /\
       (Mp.y pinky <? Mp.y wrist) = true)) /\
  (forall hand' others' thumb' index' pinky' wrist',
      nth_error (Mp.landmark hand') (Mp.value Mp.THUMB_TIP) = Some thumb' ->
      nth_error (Mp.landmark hand') (Mp.value Mp.INDEX_FINGER_TIP)
      = Some index' ->
      nth_error (Mp.landmark hand') (Mp.value Mp.PINKY_TIP) = Some pinky' ->
      nth_error (Mp.landmark hand') (Mp.value Mp.WRIST) = Some wrist' ->
      Mp.y thumb' = Mp.y thumb -> Mp.y index' = Mp.y index ->
      Mp.y pinky' = Mp.y pinky -> Mp.y wrist' = Mp.y wrist ->
      palm_facing {| Mp.multi_hand_landmarks := Some (hand' :: others') |} =
      palm_facing {| Mp.multi_hand_landmarks := Some (hand :: others) |}).
Proof.
  intros Ht Hi Hp Hw; split.
  - eexists; split; [exact (palm_facing_found hand others _ _ _ _ Ht Hi Hp Hw)|].
    rewrite !andb_true_iff; tauto.
  - intros hand' others' thumb' index' pinky' wrist' Ht' Hi' Hp' Hw' Et Ei Ep Ew.
    rewrite (palm_facing_found hand others _ _ _ _ Ht Hi Hp Hw),
      (palm_facing_found hand' others' _ _ _ _ Ht' Hi' Hp' Hw').
    now rewrite Et, Ei, Ep, Ew.
Qed.

Lemma palm_facing_three_comparisons_witness :
  (exists b : bool,
      palm_facing (Reference.one_hand Reference.open_hand) = Return b /\
      (b = true <->
       (0.25 <? 0.75) = true /\ (0.25 <? 0.75) = true /\
       (0.25 <? 0.75) = true)).
Proof.
  exact (proj1 (palm_facing_three_comparisons Reference.open_hand []
                  (Reference.point 0.25) (Reference.point 0.25)
                  (Reference.point 0.25) (Reference.point 0.75)
                  eq_refl eq_refl eq_refl eq_refl)).
Defined.

Lemma palm_facing_none (results : Mp.SolutionOutputs) :
  truthy (Mp.multi_hand_landmarks results) = false ->
  palm_facing results = Return false.
Proof. unfold palm_facing; now intros ->. Qed.

(** C8. With one or more hands reported, the answer is the one the first
    hand alone would get: the hands after it play no part, be the answer a
    verdict or an exception. *)
Theorem palm_facing_first_hand_only
    (hand : Mp.NormalizedLandmarkList)
    (others others' : list Mp.NormalizedLandmarkList) :
  palm_facing {| Mp.multi_hand_landmarks := Some (hand :: others) |} =
  palm_facing {| Mp.multi_hand_landmarks := Some (hand :: others') |} /\
  palm_facing {| Mp.multi_hand_landmarks := Some (hand :: others) |} =
  palm_facing {| Mp.multi_hand_landmarks := Some [hand] |}.
Proof. split; reflexivity. Qed.

(** A first hand with fewer landmarks than the schema's 21 makes the
    classifier raise [IndexError] at one of its four lookups, whatever the
    coordinates and whatever other hands follow. *)
Theorem palm_facing_short_hand
    (hand : Mp.NormalizedLandmarkList)
    (others : list Mp.NormalizedLandmarkList) :
  (List.length (Mp.landmark hand) < Mp.schema_size)%nat ->
  palm_facing {| Mp.multi_hand_landmarks := Some (hand :: others) |} =
  Raise IndexError.
Proof.
  intros Hshort.
  assert (Hpinky : nth_error (Mp.landmark hand) (Mp.value Mp.PINKY_TIP)
                   = None).
  { apply nth_error_None; unfold Mp.schema_size in Hshort; simpl; lia. }
  unfold palm_facing; cbn [truthy Mp.multi_hand_landmarks rbind getitem
                             nth_error].
  unfold getitem.
  destruct (nth_error (Mp.landmark hand) (Mp.value Mp.THUMB_TIP));
    cbn [rbind]; trivial.
  destruct (nth_error (Mp.landmark hand) (Mp.value Mp.INDEX_FINGER_TIP));
    cbn [rbind]; trivial.
  now rewrite Hpinky.
Qed.

Lemma palm_facing_short_hand_witness :
  palm_facing
    {| Mp.multi_hand_landmarks :=
         Some [{| Mp.landmark := repeat (Reference.point 0.25) 20 |}] |} =
  Raise IndexError.
Proof.
  apply palm_facing_short_hand; unfold Mp.schema_size; simpl; lia.
Defined.

Local Close Scope float_scope.

(** ** The session, for any collaborators *)

Section ServiceFacts.

Variable Image : Type.
Variable HandsState : Type.
Variable b64decode : string -> result (list Byte.byte).
Variable Image_open : list Byte.byte -> result Image.
Variable np_array : Image -> result Cv2.ndarray.
Variable hands_process :
  HandsState -> Cv2.ndarray -> HandsState * result Mp.SolutionOutputs.

Local Abbreviation World := (World HandsState).
Local Abbreviation decode_frame :=
  (decode_frame b64decode Image_open np_array).
Local Abbreviation estimator_input :=
  (estimator_input b64decode Image_open np_array).
Local Abbreviation detect_palm := (detect_palm hands_process).
Local Abbreviation process_frame :=
  (process_frame b64decode Image_open np_array hands_process).
Local Abbreviation frame_body :=
  (frame_body b64decode Image_open np_array hands_process).
Local Abbreviation frame :=
  (frame b64decode Image_open np_array hands_process).
Local Abbreviation session :=
  (session b64decode Image_open np_array hands_process).
Local Abbreviation websocket_endpoint :=
  (websocket_endpoint b64decode Image_open np_array hands_process).
Local Abbreviation verdict :=
  (verdict b64decode Image_open np_array hands_process).
Local Abbreviation replies :=
  (replies b64decode Image_open np_array hands_process).
Local Abbreviation hands_after :=
  (hands_after b64decode Image_open np_array hands_process).

Implicit Types (w : World) (data : string) (e : exn).

(** *** The socket *)

Lemma send_text_ok (text : string) w :
  next_send_ok w = true -> send_text text w = (deliver text w, Return tt).
Proof.
  unfold next_send_ok, send_text.
  destruct (send_faults w) as [|[e|] faults]; trivial; discriminate.
Qed.

Lemma send_text_fault (text : string) w e (faults : list (option exn)) :
  send_faults w = Some e :: faults ->
  send_text text w = (fault w, Raise e).
Proof. unfold send_text; now intros ->. Qed.

Lemma sound_next w : sound_socket w = true -> next_send_ok w = true.
Proof.
  unfold sound_socket, next_send_ok.
  destruct (send_faults w) as [|[e|] faults]; simpl; trivial.
Qed.

Lemma sound_tl w w' :
  send_faults w' = tl (send_faults w) ->
  sound_socket w = true -> sound_socket w' = true.
Proof.
  unfold sound_socket; intros ->.
  destruct (send_faults w) as [|o faults]; simpl; trivial.
  now intros H; apply andb_prop in H.
Qed.

(** *** One frame *)

Lemma process_frame_verdict data w :
  process_frame data w =
  (set_hands (fst (verdict (hands w) data)) w,
   snd (verdict (hands w) data)).
Proof.
  unfold Server.process_frame, Server.verdict,
    Server.estimator_input, Server.detect_palm, bind, lift, process.
  destruct decode_frame as [opencv_img|e]; simpl;
    [|now destruct w].
  destruct (Cv2.cvtColor opencv_img Cv2.COLOR_BGR2RGB) as [image_rgb|e];
    simpl; [|now destruct w].
  destruct (hands_process (hands w) image_rgb) as [h' [results|e]];
    reflexivity.
Qed.

Lemma process_frame_socket data w :
  send_faults (fst (process_frame data w)) = send_faults w /\
  outbox (fst (process_frame data w)) = outbox w /\
  stdout (fst (process_frame data w)) = stdout w.
Proof. now rewrite process_frame_verdict. Qed.

(** The inner [try ... except] spelled out. *)
Lemma frame_unfold data w :
  frame data w =
  match process_frame data w with
  | (w1, Return palm_detected) =>
      match send_text (if palm_detected : bool then "start" else "wait") w1
      with
      | (w2, Return u) => (w2, Return u)
      | (w2, Raise e) =>
          send_text "error" (log (ErrorProcessingImage e) w2)
      end
  | (w1, Raise e) => send_text "error" (log (ErrorProcessingImage e) w1)
  end.
Proof.
  unfold Server.frame, Server.frame_body, try_except, bind, print.
  destruct (process_frame data w) as [w1 [palm_detected|e]]; trivial.
Qed.

(** A frame answered over a socket whose coming send works. *)
Lemma frame_answered data w :
  next_send_ok w = true ->
  snd (frame data w) = Return tt /\
  outbox (fst (frame data w)) =
    outbox w ++ [token_of (snd (verdict (hands w) data))] /\
  hands (fst (frame data w)) = fst (verdict (hands w) data) /\
  send_faults (fst (frame data w)) = tl (send_faults w).
Proof.
  intros Hok; rewrite frame_unfold, process_frame_verdict.
  destruct (verdict (hands w) data) as [h' [[|]|e]]; cbn [fst snd];
    rewrite send_text_ok by exact Hok; repeat split.
Qed.

Lemma send_text_faults (text : string) w :
  send_faults (fst (send_text text w)) = tl (send_faults w) /\
  (forall e, snd (send_text text w) = Raise e ->
             hd None (send_faults w) = Some e).
Proof.
  unfold send_text.
  destruct (send_faults w) as [|[e0|] faults] eqn:E; simpl; rewrite E;
    split; trivial; try discriminate.
  now intros e [= <-].
Qed.

Lemma hd_in {A} (x : A) (xs : list (option A)) :
  hd None xs = Some x -> In (Some x) xs.
Proof. destruct xs; simpl; [discriminate | auto]. Qed.

(** Whatever the socket does, a frame consumes at most two scripted send
    outcomes and raises only what a send raised. *)
Lemma frame_faults data w :
  (exists k, send_faults (fst (frame data w)) = skipn k (send_faults w)) /\
  (forall e, snd (frame data w) = Raise e -> In (Some e) (send_faults w)).
Proof.
  rewrite frame_unfold.
  destruct (process_frame_socket data w) as (E1 & _ & _).
  destruct (process_frame data w) as [w1 [palm_detected|e0]];
    cbn [fst] in E1.
  - destruct (send_text_faults (if palm_detected then "start" else "wait")
                w1) as [F1 R1].
    destruct (send_text _ w1) as [w2 [u|e1]]; cbn [fst snd] in *.
    + split; [exists 1%nat; now rewrite F1, E1 | discriminate].
    + destruct (send_text_faults "error" (log (ErrorProcessingImage e1) w2))
        as [F2 R2].
      change (send_faults (log (ErrorProcessingImage e1) w2))
        with (send_faults w2) in F2, R2.
      rewrite F1, E1 in F2, R2.
      split.
      * exists 2%nat; rewrite F2.
        now destruct (send_faults w) as [|? [|? ?]].
      * intros e He; apply R2, hd_in in He.
        destruct (send_faults w); simpl in *; tauto.
  - destruct (send_text_faults "error" (log (ErrorProcessingImage e0) w1))
      as [F2 R2].
    change (send_faults (log (ErrorProcessingImage e0) w1))
      with (send_faults w1) in F2, R2.
    rewrite E1 in F2, R2.
    split; [exists 1%nat; now rewrite F2 |].
    intros e He; now apply R2, hd_in in He.
Qed.

(** *** The loop *)

Lemma session_cons data (rest : list (result string)) w :
  session (Return data :: rest) w =
  match frame data w with
  | (w', Return _) => session rest w'
  | (w', Raise e) => (w', Raise e)
  end.
Proof. reflexivity. Qed.

Lemma session_receive_raises e (rest : list (result string)) w :
  session (Raise e :: rest) w = (w, Raise e).
Proof. reflexivity. Qed.

Lemma in_skipn {A} (x : A) (k : nat) (xs : list A) :
  In x (skipn k xs) -> In x xs.
Proof.
  revert xs; induction k as [|k IH]; intros [|y xs]; simpl; auto.
Qed.

(** The loop stops only on an exception that a [receive_text] or a
    [send_text] raised. *)
Lemma session_raises (incoming : list (result string)) :
  forall w e,
    snd (session incoming w) = Raise e ->
    In (Raise e) incoming \/ In (Some e) (send_faults w).
Proof.
  induction incoming as [|[data|e0] rest IH]; intros w e.
  - discriminate.
  - rewrite session_cons.
    destruct (frame_faults data w) as [[k Hk] Hraise].
    destruct (frame data w) as [w' [u|e1]]; cbn [fst snd] in *.
    + intros H; destruct (IH w' e H) as [Hin|Hin]; [left; now right|].
      right; rewrite Hk in Hin; now apply in_skipn in Hin.
    + intros [= <-]; right; now apply Hraise.
  - rewrite session_receive_raises; intros [= <-]; left; now left.
Qed.

(** On a sound socket a run of messages is answered one for one. *)
Lemma session_answered (msgs : list string) :
  forall w,
    sound_socket w = true ->
    snd (session (map (@Return string) msgs) w) = Return tt /\
    outbox (fst (session (map (@Return string) msgs) w)) =
      outbox w ++ replies (hands w) msgs /\
    hands (fst (session (map (@Return string) msgs) w)) =
      hands_after (hands w) msgs /\
    sound_socket (fst (session (map (@Return string) msgs) w)) = true.
Proof.
  induction msgs as [|data rest IH]; intros w Hsound.
  - simpl; rewrite app_nil_r; auto.
  - cbn [map]; rewrite session_cons.
    destruct (frame_answered data w (sound_next w Hsound))
      as (Hret & Hout & Hhands & Hfaults).
    destruct (frame data w) as [w' [u|e]]; cbn [fst snd] in *;
      [|discriminate].
    destruct (IH w' (sound_tl w w' Hfaults Hsound))
      as (IHret & IHout & IHhands & IHsound).
    rewrite IHret, IHout, IHhands, Hout, Hhands; cbn [replies hands_after].
    destruct (verdict (hands w) data) as [h' r]; cbn [fst snd].
    now rewrite <- app_assoc.
Qed.

Lemma replies_length (msgs : list string) :
  forall h, List.length (replies h msgs) = List.length msgs.
Proof.
  induction msgs as [|data rest IH]; intros h; simpl; trivial.
  destruct (verdict h data) as [h' r]; simpl; now rewrite IH.
Qed.

Lemma token_of_is_token (r : result bool) : is_token (token_of r).
Proof. unfold is_token; destruct r as [[|]|e]; simpl; auto. Qed.

Lemma replies_tokens (msgs : list string) :
  forall h, Forall is_token (replies h msgs).
Proof.
  induction msgs as [|data rest IH]; intros h; simpl; [constructor|].
  destruct (verdict h data) as [h' r]; constructor;
    [apply token_of_is_token | apply IH].
Qed.

Lemma replies_app (history msgs : list string) :
  forall h,
    replies h (history ++ msgs) =
    replies h history ++ replies (hands_after h history) msgs.
Proof.
  induction history as [|data rest IH]; intros h; simpl; trivial.
  destruct (verdict h data) as [h' r]; simpl; now rewrite IH.
Qed.

(** What a send, a frame and a run add to the outbox. *)
Lemma send_text_outbox (text : string) w :
  exists sent,
    outbox (fst (send_text text w)) = outbox w ++ sent /\
    (sent = [] \/ sent = [text]) /\
    (snd (send_text text w) = Return tt -> sent = [text]) /\
    ((exists e, snd (send_text text w) = Raise e) -> sent = []).
Proof.
  unfold send_text.
  destruct (send_faults w) as [|[e|] faults]; simpl.
  - exists [text]; repeat split; auto; intros [e H]; discriminate.
  - exists []; rewrite app_nil_r; repeat split; auto; discriminate.
  - exists [text]; repeat split; auto; intros [e H]; discriminate.
Qed.

Lemma frame_outbox data w :
  exists sent,
    outbox (fst (frame data w)) = outbox w ++ sent /\
    Forall is_token sent /\ (List.length sent <= 1)%nat.
Proof.
  rewrite frame_unfold.
  destruct (process_frame_socket data w) as (_ & E1 & _).
  destruct (process_frame data w) as [w1 [palm_detected|e0]];
    cbn [fst] in E1.
  - destruct (send_text_outbox (if palm_detected then "start" else "wait")
                w1) as (sent1 & O1 & C1 & _ & F1).
    destruct (send_text _ w1) as [w2 [u|e1]]; cbn [fst snd] in *.
    + exists sent1; rewrite O1, E1; split; trivial.
      destruct C1 as [-> | ->]; split; simpl; auto.
      constructor; [|constructor].
      destruct palm_detected; unfold is_token; auto.
    + rewrite (F1 (ex_intro _ e1 eq_refl)), app_nil_r in O1.
      destruct (send_text_outbox "error"
                  (log (ErrorProcessingImage e1) w2))
        as (sent2 & O2 & C2 & _).
      exists sent2; rewrite O2; cbn [log outbox]; rewrite O1, E1.
      split; trivial.
      destruct C2 as [-> | ->]; split; simpl; auto.
      constructor; [unfold is_token; auto | constructor].
  - destruct (send_text_outbox "error" (log (ErrorProcessingImage e0) w1))
      as (sent2 & O2 & C2 & _).
    exists sent2; rewrite O2; cbn [log outbox]; rewrite E1.
    split; trivial.
    destruct C2 as [-> | ->]; split; simpl; auto.
    constructor; [unfold is_token; auto | constructor].
Qed.

Lemma session_outbox (incoming : list (result string)) :
  forall w,
    exists sent,
      outbox (fst (session incoming w)) = outbox w ++ sent /\
      Forall is_token sent /\
      (List.length sent <= List.length incoming)%nat.
Proof.
  induction incoming as [|[data|e0] rest IH]; intros w.
  - exists []; simpl; rewrite app_nil_r; auto.
  - rewrite session_cons.
    destruct (frame_outbox data w) as (sent1 & O1 & T1 & L1).
    destruct (frame data w) as [w' [u|e1]]; cbn [fst] in *.
    + destruct (IH w') as (sent2 & O2 & T2 & L2).
      exists (sent1 ++ sent2); rewrite O2, O1, app_assoc.
      split; [trivial|split; [now apply Forall_app|]].
      rewrite length_app; simpl; lia.
    + exists sent1; repeat split; trivial; simpl; lia.
  - exists []; rewrite session_receive_raises; simpl.
    rewrite app_nil_r; repeat split; auto; lia.
Qed.

Lemma endpoint_outbox (accept_fault : option exn)
    (incoming : list (result string)) w :
  exists sent,
    outbox (fst (websocket_endpoint accept_fault incoming w)) =
    outbox w ++ sent /\
    Forall is_token sent /\
    (List.length sent <= List.length incoming)%nat.
Proof.
  unfold Server.websocket_endpoint, bind, try_except, ret, lift, print.
  destruct accept_fault as [e|].
  - exists []; simpl; rewrite app_nil_r; repeat split; auto; lia.
  - destruct (session_outbox incoming w) as (sent & O & T & L).
    exists sent.
    destruct (session incoming w) as [w' [u|e]]; cbn [fst] in *; auto.
Qed.

(** An accepted connection ends either awaiting a message or closed, and
    closed only after a [receive_text] or a [send_text] raised. *)
Lemma endpoint_status (incoming : list (result string)) w :
  (snd (websocket_endpoint None incoming w) = Return Open /\
   snd (session incoming w) = Return tt) \/
  (snd (websocket_endpoint None incoming w) = Return Closed /\
   exists e, snd (session incoming w) = Raise e /\
             fst (websocket_endpoint None incoming w) =
             log (WebSocketError e) (fst (session incoming w))).
Proof.
  unfold Server.websocket_endpoint, bind, try_except, ret, lift, print.
  destruct (session incoming w) as [w' [[]|e]]; cbn [fst snd]; eauto.
Qed.

(** *** Errors inside a frame *)

Lemma caught_error_is_sent
    data w (w1 : World) e (rest : list (result string)) :
  process_frame data w = (w1, Raise e) ->
  frame data w = send_text "error" (log (ErrorProcessingImage e) w1) /\
  (next_send_ok w = true ->
   frame data w =
     (deliver "error" (log (ErrorProcessingImage e) w1), Return tt) /\
   session (Return data :: rest) w =
     session rest (deliver "error" (log (ErrorProcessingImage e) w1))).
Proof.
  intros Hp.
  assert (Hframe : frame data w =
                   send_text "error" (log (ErrorProcessingImage e) w1))
    by (now rewrite frame_unfold, Hp).
  split; [exact Hframe|].
  intros Hok.
  destruct (process_frame_socket data w) as (E1 & _ & _).
  rewrite Hp in E1; cbn [fst] in E1.
  assert (Hsend : send_text "error" (log (ErrorProcessingImage e) w1) =
                  (deliver "error" (log (ErrorProcessingImage e) w1),
                   Return tt)).
  { apply send_text_ok; unfold next_send_ok in *; cbn [log send_faults].
    now rewrite E1. }
  split; [now rewrite Hframe|].
  now rewrite session_cons, Hframe, Hsend.
Qed.

(** C2. An exception raised while a frame is decoded, estimated or
    classified is caught: the handler logs it and sends [error]; when
    that send goes through, the loop moves on to the next message.  An
    accepted connection is closed only after a [receive_text] or a
    [send_text] raised (peer close included), whatever the frames did. *)
Theorem processing_error_is_answered
    data w (w1 : World) e (rest : list (result string)) :
  process_frame data w = (w1, Raise e) ->
  frame data w = send_text "error" (log (ErrorProcessingImage e) w1) /\
  (next_send_ok w = true ->
   frame data w =
     (deliver "error" (log (ErrorProcessingImage e) w1), Return tt) /\
   session (Return data :: rest) w =
     session rest (deliver "error" (log (ErrorProcessingImage e) w1))) /\
  (forall (incoming : list (result string)) (w0 : World),
      snd (websocket_endpoint None incoming w0) = Return Closed ->
      exists e', In (Raise e') incoming \/ In (Some e') (send_faults w0)) /\
  (forall (msgs : list string) (w0 : World),
      sound_socket w0 = true ->
      snd (websocket_endpoint None (map (@Return string) msgs) w0) =
      Return Open).
Proof.
  intros Hp.
  destruct (caught_error_is_sent data w w1 e rest Hp)
    as (Hframe & Hnext).
  split; [exact Hframe|]; split; [exact Hnext|]; split.
  - intros incoming w0 Hclosed.
    destruct (endpoint_status incoming w0) as [[Hopen _]|[_ (e' & Hr & _)]];
      [congruence|].
    exists e'; now apply session_raises.
  - intros msgs w0 Hsound.
    destruct (session_answered msgs w0 Hsound) as (Hret & _).
    destruct (endpoint_status (map (@Return string) msgs) w0)
      as [[Hopen _]|[_ (e' & Hr & _)]]; [exact Hopen | congruence].
Qed.

(** C10. When the send of the verdict raises, the handler of the frame
    takes the exception and sends [error] on the same socket; if that
    send goes through the loop carries on, and only if it raises too does
    the coroutine log the exception and end. *)
Theorem verdict_send_failure_is_retried
    data w (w1 : World) (palm_detected : bool) e
    (faults : list (option exn)) (rest : list (result string)) :
  process_frame data w = (w1, Return palm_detected) ->
  send_faults w = Some e :: faults ->
  frame data w =
    send_text "error" (log (ErrorProcessingImage e) (fault w1)) /\
  (hd None faults = None ->
   session (Return data :: rest) w =
     session rest
       (deliver "error" (log (ErrorProcessingImage e) (fault w1)))) /\
  (forall e2,
      hd None faults = Some e2 ->
      websocket_endpoint None (Return data :: rest) w =
        (log (WebSocketError e2)
           (fault (log (ErrorProcessingImage e) (fault w1))),
         Return Closed)).
Proof.
  intros Hp Hfaults.
  destruct (process_frame_socket data w) as (E1 & _ & _).
  rewrite Hp in E1; cbn [fst] in E1; rewrite Hfaults in E1.
  assert (Hframe : frame data w =
                   send_text "error"
                     (log (ErrorProcessingImage e) (fault w1))).
  { rewrite frame_unfold, Hp.
    now rewrite (send_text_fault _ w1 e faults E1). }
  assert (E2 : send_faults (log (ErrorProcessingImage e) (fault w1)) =
               faults) by (cbn [log fault send_faults]; now rewrite E1).
  split; [exact Hframe|]; split.
  - intros Hnone.
    rewrite session_cons, Hframe, send_text_ok; trivial.
    unfold next_send_ok; rewrite E2.
    destruct faults as [|[e2|] faults']; trivial; discriminate.
  - intros e2 Hsome.
    destruct faults as [|o faults']; [discriminate|].
    simpl in Hsome; subst o.
    unfold Server.websocket_endpoint, bind, try_except, ret, print.
    rewrite session_cons, Hframe.
    now rewrite (send_text_fault _ _ e2 faults' E2).
Qed.

(** C7. A message without a comma fails at [data.split(',')[1]], before
    the estimator is touched; the handler logs the [IndexError] and sends
    [error], and when that send goes through the loop goes on to the
    following messages from an otherwise unchanged state. *)
Theorem no_comma_is_answered_error
    data w (rest : list (result string)) :
  PyStr.contains comma data = false ->
  decode_frame data = Raise IndexError /\
  process_frame data w = (w, Raise IndexError) /\
  frame data w =
    send_text "error" (log (ErrorProcessingImage IndexError) w) /\
  (next_send_ok w = true ->
   session (Return data :: rest) w =
     session rest
       (deliver "error" (log (ErrorProcessingImage IndexError) w))).
Proof.
  intros Hno.
  assert (Hd : decode_frame data = Raise IndexError).
  { unfold Server.decode_frame, payload_segment, getitem.
    rewrite PyStrFacts.split_second.
    apply PyStrFacts.after_none in Hno; now rewrite Hno. }
  assert (Hp : process_frame data w = (w, Raise IndexError)).
  { unfold Server.process_frame, bind, lift; now rewrite Hd. }
  destruct (caught_error_is_sent data w w IndexError rest Hp)
    as (Hframe & Hnext).
  repeat split; trivial.
  intros Hok; now destruct (Hnext Hok).
Qed.

(** *** Verdicts and tokens *)

(** C5. When the estimator reports no hand for a frame ([None] or an
    empty list), the classifier returns false, and the frame is answered
    [wait] as soon as the send goes through. *)
Theorem no_hand_is_answered_wait
    data w (image_rgb : Cv2.ndarray) (h' : HandsState)
    (results : Mp.SolutionOutputs) :
  estimator_input data = Return image_rgb ->
  hands_process (hands w) image_rgb = (h', Return results) ->
  truthy (Mp.multi_hand_landmarks results) = false ->
  palm_facing results = Return false /\
  process_frame data w = (set_hands h' w, Return false) /\
  (next_send_ok w = true ->
   frame data w = (deliver "wait" (set_hands h' w), Return tt)).
Proof.
  intros Hin Hest Hnone.
  pose proof (palm_facing_none results Hnone) as Hpalm.
  assert (Hp : process_frame data w = (set_hands h' w, Return false)).
  { rewrite process_frame_verdict; unfold Server.verdict.
    rewrite Hin; cbn iota; rewrite Hest; cbn [fst snd rbind].
    now rewrite Hpalm. }
  repeat split; trivial.
  intros Hok; rewrite frame_unfold, Hp.
  now rewrite send_text_ok.
Qed.

(** C4. On a socket whose sends go through, every message received gets
    exactly one text in return, in order: [start] for a true verdict,
    [wait] for a false one, [error] when processing raised.  Whatever the
    socket does, the peer is only ever sent these three texts, and no more
    of them than messages were received. *)
Theorem one_token_per_message (msgs : list string) w :
  sound_socket w = true ->
  snd (session (map (@Return string) msgs) w) = Return tt /\
  outbox (fst (session (map (@Return string) msgs) w)) =
    outbox w ++ replies (hands w) msgs /\
  List.length (replies (hands w) msgs) = List.length msgs /\
  Forall is_token (replies (hands w) msgs) /\
  (forall data (w0 : World),
      next_send_ok w0 = true ->
      outbox (fst (frame data w0)) =
      outbox w0 ++ [match snd (process_frame data w0) with
                    | Return true => "start"
                    | Return false => "wait"
                    | Raise _ => "error"
                    end]) /\
  (forall (accept_fault : option exn) (incoming : list (result string))
          (w0 : World),
      exists sent,
        outbox (fst (websocket_endpoint accept_fault incoming w0)) =
        outbox w0 ++ sent /\
        Forall is_token sent /\
        (List.length sent <= List.length incoming)%nat).
Proof.
  intros Hsound.
  destruct (session_answered msgs w Hsound) as (Hret & Hout & _).
  split; [exact Hret|]; split; [exact Hout|].
  split; [apply replies_length|]; split; [apply replies_tokens|].
  split; [|exact endpoint_outbox].
  intros data w0 Hok.
  destruct (frame_answered data w0 Hok) as (_ & Ho & _).
  now rewrite Ho, process_frame_verdict.
Qed.

(** On a socket whose sends go through, the loop and the classifier keep
    nothing from one frame to the next: the answer to a frame is fixed by
    the frame and by the state the shared estimator is in when the frame
    arrives, and earlier frames count only through that state.  With an
    estimator whose result does not depend on its state the answer is a
    function of the frame alone.  Whether [Hands.process] is such an
    estimator is a fact about MediaPipe, which this file does not model. *)
Theorem token_from_frame_and_estimator
    (history : list string) data w :
  sound_socket w = true ->
  outbox (fst (session (map (@Return string) (history ++ [data])) w)) =
    outbox (fst (session (map (@Return string) history) w)) ++
    [token_of (snd (verdict (hands_after (hands w) history) data))] /\
  ((forall (h1 h2 : HandsState) (image : Cv2.ndarray),
       snd (hands_process h1 image) = snd (hands_process h2 image)) ->
   forall h1 h2 : HandsState,
     token_of (snd (verdict h1 data)) = token_of (snd (verdict h2 data))).
Proof.
  intros Hsound; split.
  - destruct (session_answered (history ++ [data]) w Hsound) as (_ & -> & _).
    destruct (session_answered history w Hsound) as (_ & -> & _).
    rewrite replies_app, app_assoc; f_equal.
    cbn [Server.replies].
    now destruct (verdict (hands_after (hands w) history) data).
  - intros Hstateless h1 h2; unfold Server.verdict.
    destruct (estimator_input data) as [image_rgb|e]; trivial.
    specialize (Hstateless h1 h2 image_rgb).
    destruct (hands_process h1 image_rgb) as [h1' r1],
             (hands_process h2 image_rgb) as [h2' r2].
    simpl in *; now subst.
Qed.

(** *** Decoding *)

(** C6. A non-empty three-channel array from the image decoder survives
    the two conversions unchanged: [COLOR_RGB2BGR] in the endpoint
    followed by [COLOR_BGR2RGB] in [detect_palm] is the identity on it,
    so [hands.process] is called on exactly the decoded RGB pixels. *)
Theorem estimator_receives_decoded_rgb (pixels : Cv2.ndarray) :
  Cv2.three_channels pixels = true ->
  Cv2.empty pixels = false ->
  (exists opencv_img,
      Cv2.cvtColor pixels Cv2.COLOR_RGB2BGR = Return opencv_img /\
      Cv2.cvtColor opencv_img Cv2.COLOR_BGR2RGB = Return pixels) /\
  (forall data (segment : string) (img_data : list Byte.byte)
          (img : Image) w,
      payload_segment data = Return segment ->
      b64decode segment = Return img_data ->
      Image_open img_data = Return img ->
      np_array img = Return pixels ->
      estimator_input data = Return pixels /\
      process_frame data w =
        (set_hands (fst (hands_process (hands w) pixels)) w,
         rbind (snd (hands_process (hands w) pixels)) palm_facing)).
Proof.
  intros H3 Hne.
  destruct (Cv2Facts.three_channels_convert pixels Cv2.COLOR_RGB2BGR H3 Hne)
    as [opencv_img Hto].
  pose proof (Cv2Facts.cvtColor_back pixels opencv_img Cv2.COLOR_RGB2BGR
                Cv2.COLOR_BGR2RGB Hto) as Hback.
  rewrite (Cv2Facts.three_channels_keep pixels H3) in Hback.
  split; [now exists opencv_img|].
  intros data segment img_data img w Hseg Hb64 Hopen Harr.
  assert (Hin : estimator_input data = Return pixels).
  { unfold Server.estimator_input, Server.decode_frame.
    rewrite Hseg; cbn [rbind]; rewrite Hb64; cbn [rbind].
    rewrite Hopen; cbn [rbind]; rewrite Harr; cbn [rbind].
    now rewrite Hto; cbn [rbind]. }
  split; [exact Hin|].
  rewrite process_frame_verdict; unfold Server.verdict; rewrite Hin.
  now destruct (hands_process (hands w) pixels).
Qed.

(** C3, as the code has it. The text handed to the base64 decoder is the
    second comma-separated field of the message: what lies between the
    first comma and the next one (the whole remainder when it holds no
    comma).  Two messages with the same text after the first comma are
    therefore decoded alike and, from the same state, answered alike,
    whatever precedes the comma. *)
Theorem payload_is_second_field (d1 d2 : string) :
  remainder_after_first_comma d1 = remainder_after_first_comma d2 ->
  payload_segment d1 =
    match remainder_after_first_comma d1 with
    | Some rest => Return (PyStr.before comma rest)
    | None => Raise IndexError
    end /\
  (forall rest,
      remainder_after_first_comma d1 = Some rest ->
      PyStr.contains comma rest = false ->
      payload_segment d1 = Return rest) /\
  payload_segment d1 = payload_segment d2 /\
  decode_frame d1 = decode_frame d2 /\
  (forall w, frame d1 w = frame d2 w).
Proof.
  assert (Hseg : forall d,
             payload_segment d =
             match remainder_after_first_comma d with
             | Some rest => Return (PyStr.before comma rest)
             | None => Raise IndexError
             end).
  { intros d; unfold payload_segment, getitem, remainder_after_first_comma.
    rewrite PyStrFacts.split_second.
    now destruct (PyStr.after comma d). }
  intros Hsame.
  assert (Hpay : payload_segment d1 = payload_segment d2)
    by (now rewrite !Hseg, Hsame).
  assert (Hdec : decode_frame d1 = decode_frame d2)
    by (unfold Server.decode_frame; now rewrite Hpay).
  split; [apply Hseg|]; split; [|split; [exact Hpay|split; [exact Hdec|]]].
  - intros rest Hrest Hno; rewrite Hseg, Hrest.
    now rewrite PyStrFacts.before_whole.
  - intros w.
    unfold Server.frame, Server.frame_body, Server.process_frame.
    now rewrite Hdec.
Qed.

(** *** More on one frame *)

Lemma send_text_either (text : string) w :
  send_text text w = (deliver text w, Return tt) \/
  exists e, send_text text w = (fault w, Raise e).
Proof.
  unfold send_text; destruct (send_faults w) as [|[e|] faults]; eauto.
Qed.

(** The three ways a frame can end: answered with its verdict; answered
    [error] after the handler logged an exception; or left unanswered, the
    handler's own send having raised. *)
Lemma frame_effects data w :
  exists w2 : World,
    fst (frame data w) = w2 /\
    hands w2 = fst (verdict (hands w) data) /\
    ((exists b : bool,
         snd (verdict (hands w) data) = Return b /\
         stdout w2 = stdout w /\
         outbox w2 = outbox w ++ [if b then "start" else "wait"] /\
         snd (frame data w) = Return tt) \/
     (exists e0,
         stdout w2 = stdout w ++ [ErrorProcessingImage e0] /\
         outbox w2 = outbox w ++ ["error"] /\
         snd (frame data w) = Return tt) \/
     (exists e0 e2,
         stdout w2 = stdout w ++ [ErrorProcessingImage e0] /\
         outbox w2 = outbox w /\
         snd (frame data w) = Raise e2)).
Proof.
  eexists; split; [reflexivity|].
  rewrite frame_unfold, process_frame_verdict.
  destruct (verdict (hands w) data) as [h' [b|e0]]; cbn [fst snd].
  - destruct (send_text_either (if b then "start" else "wait")
                (set_hands h' w)) as [-> | [e1 ->]].
    + split; [reflexivity|]; left; exists b; repeat split.
    + destruct (send_text_either "error"
                  (log (ErrorProcessingImage e1) (fault (set_hands h' w))))
        as [-> | [e2 ->]]; (split; [reflexivity|]); right;
        [left; exists e1 | right; exists e1, e2]; repeat split.
  - destruct (send_text_either "error"
                (log (ErrorProcessingImage e0) (set_hands h' w)))
      as [-> | [e2 ->]]; (split; [reflexivity|]); right;
      [left; exists e0 | right; exists e0, e2]; repeat split.
Qed.

Lemma frame_hands data w :
  hands (fst (frame data w)) = hands (fst (process_frame data w)).
Proof.
  destruct (frame_effects data w) as (w2 & -> & Hh & _).
  now rewrite process_frame_verdict.
Qed.

(** The estimator is stepped by the frame whether or not the answer can be
    sent: what the socket does has no part in the state it is left in. *)
Theorem frame_steps_estimator data w :
  hands (fst (frame data w)) = fst (verdict (hands w) data) /\
  hands (fst (frame data w)) = hands (fst (process_frame data w)).
Proof.
  split; [|apply frame_hands].
  now rewrite frame_hands, process_frame_verdict.
Qed.

(** On any socket, [start] reaches the peer only for a frame the
    classifier found true, and [wait] only for one it found false. *)
Theorem verdict_tokens_are_earned data w (sent : list string) :
  outbox (fst (frame data w)) = outbox w ++ sent ->
  (In "start" sent -> snd (process_frame data w) = Return true) /\
  (In "wait" sent -> snd (process_frame data w) = Return false).
Proof.
  intros Hsent; rewrite process_frame_verdict; cbn [snd].
  destruct (frame_effects data w)
    as (w2 & E & _ & [(b & Hb & _ & Ho & _)
                     |[(e0 & _ & Ho & _)|(e0 & e2 & _ & Ho & _)]]);
    rewrite E in Hsent; rewrite Ho in Hsent.
  - apply app_inv_head in Hsent; subst sent; rewrite Hb.
    destruct b; simpl; split; intros [H|[]]; trivial; discriminate.
  - apply app_inv_head in Hsent; subst sent.
    simpl; split; intros [H|[]]; discriminate.
  - rewrite <- (app_nil_r (outbox w)) in Hsent at 1.
    apply app_inv_head in Hsent; subst sent; simpl; tauto.
Qed.

Lemma decode_failure_caught data w e :
  decode_frame data = Raise e ->
  process_frame data w = (w, Raise e) /\
  frame data w = send_text "error" (log (ErrorProcessingImage e) w) /\
  hands (fst (frame data w)) = hands w.
Proof.
  intros Hd.
  assert (Hp : process_frame data w = (w, Raise e)).
  { unfold Server.process_frame, bind, lift; now rewrite Hd. }
  split; [exact Hp|]; split.
  - now destruct (caught_error_is_sent data w w e [] Hp).
  - now rewrite frame_hands, Hp.
Qed.

(** A frame whose decoding raises (no comma, bad base64, bytes that are no
    image, unsupported channels) is answered [error] without the estimator
    being called: its state is the one the frame found. *)
Theorem decode_failure_skips_estimator data w e :
  decode_frame data = Raise e ->
  process_frame data w = (w, Raise e) /\
  frame data w = send_text "error" (log (ErrorProcessingImage e) w) /\
  hands (fst (frame data w)) = hands w.
Proof. exact (decode_failure_caught data w e). Qed.

(** *** What reaches the estimator *)

(** Whatever the message, an array handed to [hands.process] is non-empty
    and has three channels in every pixel. *)
Theorem estimator_input_is_three_channel data (image_rgb : Cv2.ndarray) :
  estimator_input data = Return image_rgb ->
  Cv2.three_channels image_rgb = true /\ Cv2.empty image_rgb = false.
Proof.
  unfold Server.estimator_input.
  destruct (decode_frame data) as [opencv_img|e]; cbn [rbind];
    [|discriminate].
  intros H; now destruct (Cv2Facts.cvtColor_shape _ _ _ H) as (? & ? & _).
Qed.

Lemma decode_frame_stages data (segment : string)
    (img_data : list Byte.byte) (img : Image) (pixels : Cv2.ndarray) :
  payload_segment data = Return segment ->
  b64decode segment = Return img_data ->
  Image_open img_data = Return img ->
  np_array img = Return pixels ->
  decode_frame data = Cv2.cvtColor pixels Cv2.COLOR_RGB2BGR.
Proof.
  intros Hseg Hb64 Hopen Harr; unfold Server.decode_frame.
  rewrite Hseg; cbn [rbind]; rewrite Hb64; cbn [rbind].
  now rewrite Hopen; cbn [rbind]; rewrite Harr.
Qed.

(** A decoded image of three or four channels per pixel reaches the
    estimator as its first three channels in the decoded order: a fourth
    (alpha) channel is dropped, nothing is reordered. *)
Theorem estimator_receives_colour_channels data (segment : string)
    (img_data : list Byte.byte) (img : Image) (pixels : Cv2.ndarray) w :
  payload_segment data = Return segment ->
  b64decode segment = Return img_data ->
  Image_open img_data = Return img ->
  np_array img = Return pixels ->
  Cv2.convertible pixels = true ->
  estimator_input data = Return (Cv2.drop_alpha pixels) /\
  process_frame data w =
    (set_hands (fst (hands_process (hands w) (Cv2.drop_alpha pixels))) w,
     rbind (snd (hands_process (hands w) (Cv2.drop_alpha pixels)))
       palm_facing).
Proof.
  intros Hseg Hb64 Hopen Harr Hconv.
  pose proof (decode_frame_stages data segment img_data img pixels
                Hseg Hb64 Hopen Harr) as Hd.
  destruct (Cv2Facts.cvtColor_convertible pixels Cv2.COLOR_RGB2BGR Hconv)
    as [opencv_img Hto].
  assert (Hin : estimator_input data = Return (Cv2.drop_alpha pixels)).
  { unfold Server.estimator_input; rewrite Hd, Hto; cbn [rbind].
    exact (Cv2Facts.cvtColor_back pixels opencv_img Cv2.COLOR_RGB2BGR
             Cv2.COLOR_BGR2RGB Hto). }
  split; [exact Hin|].
  rewrite process_frame_verdict; unfold Server.verdict; rewrite Hin.
  now destruct (hands_process (hands w) (Cv2.drop_alpha pixels)).
Qed.

(** A decoded image that is empty or has a pixel of one, two or more than
    four channels (greyscale, palette, grey with alpha) makes the first
    [cvtColor] raise: the frame is answered [error] and the estimator is
    not called. *)
Theorem unsupported_channels_are_answered_error data (segment : string)
    (img_data : list Byte.byte) (img : Image) (pixels : Cv2.ndarray) w :
  payload_segment data = Return segment ->
  b64decode segment = Return img_data ->
  Image_open img_data = Return img ->
  np_array img = Return pixels ->
  Cv2.convertible pixels = false ->
  exists msg,
    process_frame data w = (w, Raise (Cv2Error msg)) /\
    frame data w =
      send_text "error" (log (ErrorProcessingImage (Cv2Error msg)) w).
Proof.
  intros Hseg Hb64 Hopen Harr Hconv.
  pose proof (decode_frame_stages data segment img_data img pixels
                Hseg Hb64 Hopen Harr) as Hd.
  destruct (Cv2Facts.cvtColor_not_convertible pixels Cv2.COLOR_RGB2BGR Hconv)
    as [msg Hto].
  rewrite Hto in Hd; exists msg.
  now destruct (decode_failure_caught data w (Cv2Error msg) Hd)
    as (? & ? & _).
Qed.

(** Once a message holds a comma, whatever is appended to it after one
    more comma changes nothing: same field decoded, same run. *)
Theorem trailing_fields_are_ignored data (junk : string) w :
  PyStr.contains comma data = true ->
  payload_segment (data ++ String comma junk)%string = payload_segment data /\
  frame (data ++ String comma junk)%string w = frame data w.
Proof.
  intros Hcomma.
  assert (Hseg : payload_segment (data ++ String comma junk)%string =
                 payload_segment data).
  { unfold payload_segment, getitem.
    rewrite !PyStrFacts.split_second, PyStrFacts.after_app by exact Hcomma.
    destruct (PyStr.after comma data) as [rest|]; simpl; trivial.
    now rewrite PyStrFacts.before_app. }
  split; [exact Hseg|].
  unfold Server.frame, Server.frame_body, Server.process_frame,
    Server.decode_frame.
  now rewrite Hseg.
Qed.

(** Called on an image [cvtColor] does not accept, [detect_palm] raises
    the [cv2.error] instead of answering false, and the estimator is not
    called. *)
Theorem detect_palm_rejects_unsupported (image : Cv2.ndarray) w :
  Cv2.convertible image = false ->
  exists msg, detect_palm image w = (w, Raise (Cv2Error msg)).
Proof.
  intros Hconv.
  destruct (Cv2Facts.cvtColor_not_convertible image Cv2.COLOR_BGR2RGB Hconv)
    as [msg Hto].
  exists msg; unfold Server.detect_palm, bind, lift; now rewrite Hto.
Qed.

(** *** More on the loop *)

(** Messages are handled strictly one after the other: a run over
    [first ++ second] is the run over [first] followed, if it did not
    raise, by the run over [second] from the state it left. *)
Theorem session_in_two_runs (first second : list (result string)) :
  forall w,
    session (first ++ second) w =
    match session first w with
    | (w', Return _) => session second w'
    | (w', Raise e) => (w', Raise e)
    end.
Proof.
  induction first as [|[data|e0] rest IH]; intros w; cbn [app].
  - reflexivity.
  - rewrite !session_cons.
    destruct (frame data w) as [w' [u|e]]; [apply IH | reflexivity].
  - now rewrite !session_receive_raises.
Qed.

Lemma session_stops_at_raise (before after : list (result string)) e :
  forall w,
    session (before ++ Raise e :: after) w = session (before ++ [Raise e]) w /\
    exists e', snd (session (before ++ Raise e :: after) w) = Raise e'.
Proof.
  induction before as [|[data|e0] rest IH]; intros w; cbn [app].
  - rewrite !session_receive_raises; split; [|eexists]; reflexivity.
  - rewrite !session_cons.
    destruct (frame data w) as [w' [u|e1]]; [apply IH |].
    split; [|eexists]; reflexivity.
  - rewrite !session_receive_raises; split; [|eexists]; reflexivity.
Qed.

(** When a [receive_text] raises (the peer has gone), the coroutine ends
    there: it returns Closed, and the messages scripted after that point
    are never received, decoded or answered. *)
Theorem nothing_after_disconnect (before after : list (result string)) e w :
  websocket_endpoint None (before ++ Raise e :: after) w =
  websocket_endpoint None (before ++ [Raise e]) w /\
  snd (websocket_endpoint None (before ++ Raise e :: after) w) =
  Return Closed.
Proof.
  destruct (session_stops_at_raise before after e w) as [Hsame [e' Hraise]].
  split.
  - unfold Server.websocket_endpoint, bind, try_except, ret.
    now rewrite Hsame.
  - destruct (endpoint_status (before ++ Raise e :: after) w)
      as [[_ Hret]|[Hclosed _]]; [congruence | exact Hclosed].
Qed.

(** What a run prints and sends: only [Error processing image] lines, at
    most one per message, and at least one for every [error] delivered. *)
Lemma session_effects (incoming : list (result string)) :
  forall w,
    exists (sent : list string) (lines : list log_line),
      outbox (fst (session incoming w)) = outbox w ++ sent /\
      stdout (fst (session incoming w)) = stdout w ++ lines /\
      forallb is_processing_line lines = true /\
      (count_occ string_dec sent "error" <= List.length lines)%nat /\
      (List.length lines <= List.length incoming)%nat.
Proof.
  induction incoming as [|[data|e0] rest IH]; intros w.
  - exists [], []; simpl; rewrite !app_nil_r; auto.
  - rewrite session_cons.
    destruct (frame_effects data w)
      as (w2 & E & _ & [(b & _ & Hl & Ho & Hr)
                       |[(e1 & Hl & Ho & Hr)|(e1 & e2 & Hl & Ho & Hr)]]);
      destruct (frame data w) as [w' [u|e]]; cbn [fst snd] in *;
      subst w'; try discriminate.
    + destruct (IH w2) as (sent & lines & Ho2 & Hl2 & Hp & Hc & Hn).
      exists ((if b then "start" else "wait") :: sent), lines.
      rewrite Ho2, Hl2, Ho, Hl, <- app_assoc.
      repeat split; trivial; [|simpl; lia].
      destruct b; simpl; exact Hc.
    + destruct (IH w2) as (sent & lines & Ho2 & Hl2 & Hp & Hc & Hn).
      exists ("error" :: sent), (ErrorProcessingImage e1 :: lines).
      rewrite Ho2, Hl2, Ho, Hl, <- !app_assoc.
      repeat split; trivial; simpl; lia.
    + exists [], [ErrorProcessingImage e1].
      rewrite Ho, Hl, app_nil_r; repeat split; trivial; simpl; lia.
  - exists [], []; rewrite session_receive_raises; simpl.
    rewrite !app_nil_r; repeat split; auto; lia.
Qed.


(** Every [error] the peer is sent has its [Error processing image] line
    on the server: over a connection, the [error] texts delivered are no
    more than those lines printed. *)
Theorem error_replies_are_logged
    (accept_fault : option exn) (incoming : list (result string)) w :
  exists (sent : list string) (lines : list log_line),
    outbox (fst (websocket_endpoint accept_fault incoming w)) =
      outbox w ++ sent /\
    stdout (fst (websocket_endpoint accept_fault incoming w)) =
      stdout w ++ lines /\
    (count_occ string_dec sent "error" <=
     List.length (filter is_processing_line lines))%nat.
Proof.
  unfold Server.websocket_endpoint, bind, try_except, ret, lift, print.
  destruct accept_fault as [e|].
  - exists [], []; simpl; rewrite !app_nil_r; auto.
  - destruct (session_effects incoming w)
      as (sent & lines & Ho & Hl & Hp & Hc & _).
    assert (Hf : filter is_processing_line lines = lines).
    { clear -Hp; induction lines as [|l lines IH]; simpl in *; trivial.
      apply andb_prop in Hp as [-> Hp]; now rewrite IH. }
    destruct (session incoming w) as [w' [[]|e]]; cbn [fst snd] in *.
    + exists sent, lines; rewrite Hf; auto.
    + exists sent, (lines ++ [WebSocketError e]).
      cbn [log stdout outbox]; rewrite Hl, Ho, app_assoc.
      rewrite filter_app, Hf; simpl; rewrite app_nil_r; auto.
Qed.

End ServiceFacts.

(** ** Worked runs on the reference instance *)

(** The scenarios of the interface description, one connection. *)
Example scenario_run :
  Reference.websocket_endpoint None
    [Return Reference.strong_open_hand; Return Reference.background;
     Return "not-a-valid-payload"; Return Reference.closed_fist]
    Reference.fresh =
  ({| hands := true;
      stdout := [ErrorProcessingImage IndexError];
      send_faults := [];
      outbox := ["start"; "wait"; "error"; "wait"] |}, Return Open).
Proof. reflexivity. Qed.

Example peer_close_run :
  Reference.websocket_endpoint None
    [Return Reference.closed_fist; Raise (WebSocketDisconnect 1000);
     Return Reference.strong_open_hand]
    Reference.fresh =
  ({| hands := true;
      stdout := [WebSocketError (WebSocketDisconnect 1000)];
      send_faults := [];
      outbox := ["wait"] |}, Return Closed).
Proof. reflexivity. Qed.

(** The [hands] state is shared by the connections of the process.  With
    the reference estimator, which tracks, a second connection is answered
    [start] for a frame that a first connection on an idle estimator is
    answered [wait] for. *)
Example two_connections_run :
  outbox (fst (Reference.websocket_endpoint None
                 [Return Reference.weak_open_hand] Reference.fresh)) =
  ["wait"] /\
  outbox (fst (Reference.websocket_endpoint None
                 [Return Reference.weak_open_hand]
                 (Reference.next_connection
                    (fst (Reference.websocket_endpoint None
                            [Return Reference.strong_open_hand]
                            Reference.fresh))))) =
  ["start"].
Proof. split; reflexivity. Qed.

Example rgba_run :
  estimator_input Reference.b64decode Reference.Image_open Reference.np_array
    "data:image/raw;base64,UgTIClr/" = Return [[[200; 10; 90]]]%Z.
Proof. reflexivity. Qed.

Lemma processing_error_is_answered_witness :
  Reference.frame "data:,QUJ" Reference.fresh =
  send_text "error"
    (log (ErrorProcessingImage (BinasciiError "Incorrect padding"))
       Reference.fresh).
Proof.
  exact (proj1 (processing_error_is_answered
                  Reference.Image Reference.HandsState Reference.b64decode
                  Reference.Image_open Reference.np_array
                  Reference.hands_process
                  "data:,QUJ" Reference.fresh Reference.fresh
                  (BinasciiError "Incorrect padding") [] eq_refl)).
Defined.

Lemma verdict_send_failure_is_retried_witness :
  Reference.frame Reference.strong_open_hand Reference.flaky =
  send_text "error"
    (log (ErrorProcessingImage Reference.disconnect)
       (fault (set_hands true Reference.flaky))).
Proof.
  exact (proj1 (verdict_send_failure_is_retried
                  Reference.Image Reference.HandsState Reference.b64decode
                  Reference.Image_open Reference.np_array
                  Reference.hands_process
                  Reference.strong_open_hand Reference.flaky
                  (set_hands true Reference.flaky) true Reference.disconnect [None] []
                  eq_refl eq_refl)).
Defined.

Example flaky_run :
  Reference.websocket_endpoint None
    [Return Reference.strong_open_hand; Return Reference.background]
    Reference.flaky =
  ({| hands := false;
      stdout := [ErrorProcessingImage Reference.disconnect];
      send_faults := [];
      outbox := ["error"; "wait"] |}, Return Open).
Proof. reflexivity. Qed.

Example broken_run :
  Reference.websocket_endpoint None
    [Return Reference.strong_open_hand; Return Reference.background]
    Reference.broken =
  ({| hands := true;
      stdout := [ErrorProcessingImage Reference.disconnect;
                 WebSocketError Reference.disconnect];
      send_faults := [];
      outbox := [] |}, Return Closed).
Proof. reflexivity. Qed.

Lemma no_comma_is_answered_error_witness :
  PyStr.contains comma "not-a-valid-payload" = false /\
  Reference.frame "not-a-valid-payload" Reference.fresh =
  send_text "error" (log (ErrorProcessingImage IndexError) Reference.fresh).
Proof.
  split; [reflexivity|].
  exact (proj1 (proj2 (proj2
           (no_comma_is_answered_error
              Reference.Image Reference.HandsState Reference.b64decode
              Reference.Image_open Reference.np_array Reference.hands_process
              "not-a-valid-payload" Reference.fresh [] eq_refl)))).
Defined.

Lemma no_hand_is_answered_wait_witness :
  Reference.frame Reference.background Reference.fresh =
  (deliver "wait" (set_hands false Reference.fresh), Return tt).
Proof.
  exact (proj2 (proj2
           (no_hand_is_answered_wait
              Reference.Image Reference.HandsState Reference.b64decode
              Reference.Image_open Reference.np_array Reference.hands_process
              Reference.background Reference.fresh [[[0; 0; 0]]]%Z false
              Reference.no_hand eq_refl eq_refl eq_refl)) eq_refl).
Defined.

Lemma one_token_per_message_witness :
  outbox (fst (Reference.session
                 (map (@Return string)
                    [Reference.strong_open_hand; Reference.background;
                     "not-a-valid-payload"])
                 Reference.fresh)) =
  ["start"; "wait"; "error"].
Proof.
  exact (proj1 (proj2
           (one_token_per_message
              Reference.Image Reference.HandsState Reference.b64decode
              Reference.Image_open Reference.np_array Reference.hands_process
              [Reference.strong_open_hand; Reference.background;
               "not-a-valid-payload"]
              Reference.fresh eq_refl))).
Defined.

Lemma token_from_frame_and_estimator_witness :
  outbox (fst (Reference.session
                 (map (@Return string)
                    ([Reference.strong_open_hand] ++
                     [Reference.weak_open_hand]))
                 Reference.fresh)) =
  outbox (fst (Reference.session
                 (map (@Return string) [Reference.strong_open_hand])
                 Reference.fresh)) ++ ["start"].
Proof.
  exact (proj1
           (token_from_frame_and_estimator
              Reference.Image Reference.HandsState Reference.b64decode
              Reference.Image_open Reference.np_array Reference.hands_process
              [Reference.strong_open_hand] Reference.weak_open_hand
              Reference.fresh eq_refl)).
Defined.

Lemma estimator_receives_decoded_rgb_witness :
  estimator_input Reference.b64decode Reference.Image_open Reference.np_array
    Reference.strong_open_hand = Return [[[200; 10; 90]]]%Z.
Proof.
  exact (proj1
           (proj2
              (estimator_receives_decoded_rgb
                 Reference.Image Reference.HandsState Reference.b64decode
                 Reference.Image_open Reference.np_array
                 Reference.hands_process
                 [[[200; 10; 90]]]%Z eq_refl eq_refl)
              Reference.strong_open_hand "UgPIClo="
              [Byte.x52; Byte.x03; Byte.xc8; Byte.x0a; Byte.x5a]
              {| Reference.channels := 3; Reference.raw := [200; 10; 90]%Z |}
              Reference.fresh eq_refl eq_refl eq_refl eq_refl)).
Defined.

Lemma payload_is_second_field_witness :
  remainder_after_first_comma "data:image/raw;base64,UgPIClo=" =
  remainder_after_first_comma "x,UgPIClo=" /\
  Reference.frame "data:image/raw;base64,UgPIClo=" Reference.fresh =
  Reference.frame "x,UgPIClo=" Reference.fresh.
Proof.
  split; [reflexivity|].
  exact (proj2 (proj2 (proj2 (proj2
           (payload_is_second_field
              Reference.Image Reference.HandsState Reference.b64decode
              Reference.Image_open Reference.np_array Reference.hands_process
              "data:image/raw;base64,UgPIClo=" "x,UgPIClo=" eq_refl))))
           Reference.fresh).
Defined.

(** C3 does not hold as worded: with a second comma in the message, the
    decoder is handed the field between the two commas, not all the text
    after the first, and the decoded bytes differ. *)
Lemma second_comma_cuts_payload :
  remainder_after_first_comma "data:,QUJD,REVG" = Some "QUJD,REVG" /\
  payload_segment "data:,QUJD,REVG" = Return "QUJD" /\
  rbind (payload_segment "data:,QUJD,REVG") Reference.b64decode <>
  Reference.b64decode "QUJD,REVG".
Proof.
  split; [reflexivity|]; split; [reflexivity|].
  vm_compute; discriminate.
Qed.

(** ** Further runs on the reference instance *)

Lemma verdict_tokens_are_earned_witness :
  (In "start" ["start"] ->
   snd (Reference.process_frame Reference.strong_open_hand Reference.fresh) =
   Return true) /\
  (In "wait" ["start"] ->
   snd (Reference.process_frame Reference.strong_open_hand Reference.fresh) =
   Return false).
Proof.
  exact (verdict_tokens_are_earned
           Reference.Image Reference.HandsState Reference.b64decode
           Reference.Image_open Reference.np_array Reference.hands_process
           Reference.strong_open_hand Reference.fresh ["start"] eq_refl).
Defined.

Lemma decode_failure_skips_estimator_witness :
  Reference.process_frame "data:image/raw;base64,UQMBAgM=" Reference.fresh =
  (Reference.fresh, Raise UnidentifiedImageError) /\
  Reference.frame "data:image/raw;base64,UQMBAgM=" Reference.fresh =
  send_text "error"
    (log (ErrorProcessingImage UnidentifiedImageError) Reference.fresh) /\
  hands (fst (Reference.frame "data:image/raw;base64,UQMBAgM="
                Reference.fresh)) = Reference.idle.
Proof.
  exact (decode_failure_skips_estimator
           Reference.Image Reference.HandsState Reference.b64decode
           Reference.Image_open Reference.np_array Reference.hands_process
           "data:image/raw;base64,UQMBAgM=" Reference.fresh
           UnidentifiedImageError eq_refl).
Defined.

Lemma estimator_input_is_three_channel_witness :
  Cv2.three_channels [[[200; 10; 90]]]%Z = true /\
  Cv2.empty [[[200; 10; 90]]]%Z = false.
Proof.
  exact (estimator_input_is_three_channel
           Reference.Image Reference.b64decode Reference.Image_open
           Reference.np_array "data:image/raw;base64,UgTIClr/"
           [[[200; 10; 90]]]%Z eq_refl).
Defined.

Lemma estimator_receives_colour_channels_witness :
  estimator_input Reference.b64decode Reference.Image_open Reference.np_array
    "data:image/raw;base64,UgTIClr/" =
  Return (Cv2.drop_alpha [[[200; 10; 90; 255]]]%Z).
Proof.
  exact (proj1
           (estimator_receives_colour_channels
              Reference.Image Reference.HandsState Reference.b64decode
              Reference.Image_open Reference.np_array Reference.hands_process
              "data:image/raw;base64,UgTIClr/" "UgTIClr/"
              [Byte.x52; Byte.x04; Byte.xc8; Byte.x0a; Byte.x5a; Byte.xff]
              {| Reference.channels := 4;
                 Reference.raw := [200; 10; 90; 255]%Z |}
              [[[200; 10; 90; 255]]]%Z Reference.fresh
              eq_refl eq_refl eq_refl eq_refl eq_refl)).
Defined.

Lemma unsupported_channels_are_answered_error_witness :
  exists msg,
    Reference.process_frame "data:image/raw;base64,UgEH" Reference.fresh =
    (Reference.fresh, Raise (Cv2Error msg)) /\
    Reference.frame "data:image/raw;base64,UgEH" Reference.fresh =
    send_text "error"
      (log (ErrorProcessingImage (Cv2Error msg)) Reference.fresh).
Proof.
  exact (unsupported_channels_are_answered_error
           Reference.Image Reference.HandsState Reference.b64decode
           Reference.Image_open Reference.np_array Reference.hands_process
           "data:image/raw;base64,UgEH" "UgEH"
           [Byte.x52; Byte.x01; Byte.x07]
           {| Reference.channels := 1; Reference.raw := [7]%Z |}
           [[[7]]]%Z Reference.fresh
           eq_refl eq_refl eq_refl eq_refl eq_refl).
Defined.

Lemma trailing_fields_are_ignored_witness :
  payload_segment "data:image/raw;base64,UgPIClo=,and,more" =
  payload_segment "data:image/raw;base64,UgPIClo=" /\
  Reference.frame "data:image/raw;base64,UgPIClo=,and,more" Reference.fresh =
  Reference.frame "data:image/raw;base64,UgPIClo=" Reference.fresh.
Proof.
  exact (trailing_fields_are_ignored
           Reference.Image Reference.HandsState Reference.b64decode
           Reference.Image_open Reference.np_array Reference.hands_process
           "data:image/raw;base64,UgPIClo=" "and,more" Reference.fresh
           eq_refl).
Defined.

Lemma detect_palm_rejects_unsupported_witness :
  exists msg,
    detect_palm Reference.hands_process [[[7]]]%Z Reference.fresh =
    (Reference.fresh, Raise (Cv2Error msg)).
Proof.
  exact (detect_palm_rejects_unsupported
           Reference.HandsState Reference.hands_process
           [[[7]]]%Z Reference.fresh eq_refl).
Defined.
